(** * HospitalRegistry: the appointment registry, embedded and verified

    A shallow embedding of [AbstractPerson.h], [Doctor.h], [Patient.h],
    [Appointment.h], [HospitalVisitCard.h] and [Registry.h].

    - C++ [std::string] is [string]; [std::vector<T>] is [list T], with
      [push_back] as [++ [x]], [v[i]] as [v !! i] and an in-place update
      of [v[i]] as [alter f i v].
    - A method of [Registry] is a computation in the monad [M]: it threads
      the registry together with the console and the caller's own [Doctor]
      objects, and ends by returning, by throwing, or in undefined
      behaviour.  The state survives a throw, as it does in C++.
    - A reference into a vector of the registry is the index of the
      element.  A [string &] argument of [deleteAppointment] and of
      [cancelAppointment] is either a string that the call does not write or
      a string of an element of a vector that the call rewrites; it is read
      where the code reads it, with the content the string has then. *)

From Stdlib Require Import ZArith Lia Ascii DecimalString.
From stdpp Require Import base option list strings numbers gmap.

(** ** AbstractPerson.h *)

(** [pair<string, pair<string, string>>]: (dateTime, (patientName, doctorName)). *)
Definition AppointmentRef : Type := string * (string * string).

Record AbstractPerson : Type := mkPerson {
  name : string;
  dateOfBirth : string;
  appointments : list AppointmentRef
}.

(** [Doctor] and [Patient] derive from [AbstractPerson]; the only member
    either adds is a stateless [InputOutput]. *)
Definition Doctor : Type := AbstractPerson.
Definition Patient : Type := AbstractPerson.

(** [Doctor(name)]: the base constructor leaves [dateOfBirth] empty. *)
Definition Doctor_new (n : string) : Doctor := mkPerson n EmptyString [].
(** [Patient(name, dateOfBirth)] *)
Definition Patient_new (n dob : string) : Patient := mkPerson n dob [].

Definition getName (p : AbstractPerson) : string := name p.
Definition getAppointments (p : AbstractPerson) : list AppointmentRef := appointments p.

Definition addAppointment (dateTime patientName doctorName : string)
    (p : AbstractPerson) : AbstractPerson :=
  mkPerson (name p) (dateOfBirth p)
           (appointments p ++ [(dateTime, (patientName, doctorName))]).

(** *** [deleteAppointment] and the strings it is handed

    [deleteAppointment] takes its three strings as [string &] and compares
    through them while [std::remove_if] moves the elements of the vector;
    [Registry::cancelAppointment] does the same with the global list.  The
    strings referred to may be strings of the vector that is rewritten. *)

(** The three strings of an element that the lambdas compare. *)
Inductive Field : Type := DateTime | PatientName | DoctorName.

(** What a [string &] refers to, seen from the vector that is rewritten. *)
Inductive Arg : Type :=
| Outside (s : string)           (* a string that is no part of the vector *)
| Inside (k : nat) (f : Field)   (* the string [f] of the vector's element [k] *)
| Dangling.                      (* a string that has been destroyed *)

Section remove_if.
Context {A : Type}.
(** The three compared strings of an element, and the element a move
    leaves behind: the standard libraries leave a moved-from [std::string]
    and a moved-from [std::vector] empty. *)
Variable field : Field → A → string.
Variable moved_from : A.
Variables dateTime patientName doctorName : Arg.

(** Reading through a reference while the vector is [v]; [None] where the
    string read is not alive, which is undefined behaviour. *)
Definition deref (v : list A) (arg : Arg) : option string :=
  match arg with
  | Outside s => Some s
  | Inside k f => field f <$> v !! k
  | Dangling => None
  end.

(** The lambda handed to [std::remove_if], applied to the element [x] while
    the vector is [v]: the three comparisons joined by [&&], each made
    only where the one before it holds. *)
Definition lambda (v : list A) (x : A) : option bool :=
  s ← deref v dateTime;
  if String.eqb (field DateTime x) s then
    s ← deref v patientName;
    if String.eqb (field PatientName x) s then
      s ← deref v doctorName;
      Some (String.eqb (field DoctorName x) s)
    else Some false
  else Some false.

(** [std::find_if] over [rest], the elements of [v] from index [first] on:
    the index of the first one the lambda accepts, the size of the vector
    where there is none. *)
Fixpoint find_if (v rest : list A) (first : nat) : option nat :=
  match rest with
  | [] => Some first
  | x :: rest' =>
      b ← lambda v x;
      if b : bool then Some first else find_if v rest' (S first)
  end.

(** The loop of [std::remove_if] behind the first match: [first] visits the
    [n] elements that are left, and each one the lambda rejects is
    move-assigned to the element at [result], which then advances. *)
Fixpoint remove_if_loop (n : nat) (v : list A) (result first : nat)
    : option (list A * nat) :=
  match n with
  | 0 => Some (v, result)
  | S n' =>
      x ← v !! first;
      b ← lambda v x;
      if b : bool then remove_if_loop n' v result (S first)
      else remove_if_loop n' (<[first := moved_from]> (<[result := x]> v))
                          (S result) (S first)
  end.

(** [std::remove_if(v.begin(), v.end(), lambda)], as libstdc++ and libc++
    run it ([find_if], then the loop above): the vector as it is left, and
    the iterator returned. *)
Definition remove_if (v : list A) : option (list A * nat) :=
  first ← find_if v v 0;
  if decide (first = length v) then Some (v, first)
  else remove_if_loop (length v - S first) v first (S first).

(** [v.erase(std::remove_if(v.begin(), v.end(), lambda), v.end())] *)
Definition erase_remove_if (v : list A) : option (list A) :=
  '(v', result) ← remove_if v;
  Some (take result v').

End remove_if.

Definition entry_field (f : Field) (appointment : AppointmentRef) : string :=
  match f with
  | DateTime => appointment.1
  | PatientName => appointment.2.1
  | DoctorName => appointment.2.2
  end.

Definition moved_from_entry : AppointmentRef := (EmptyString, (EmptyString, EmptyString)).

(** [None] where a destroyed string is read. *)
Definition deleteAppointment (dateTime patientName doctorName : Arg)
    (p : AbstractPerson) : option AbstractPerson :=
  appointments' ← erase_remove_if entry_field moved_from_entry
                    dateTime patientName doctorName (appointments p);
  Some (mkPerson (name p) (dateOfBirth p) appointments').

(** ** Doctor.h *)

(** [Doctor::isAvailable]: the range-for over [appointments] with its early
    [return false]. *)
Fixpoint isAvailable_loop (apps : list AppointmentRef) (dateTime : string) : bool :=
  match apps with
  | [] => true
  | app :: rest =>
      if String.eqb app.1 dateTime then false else isAvailable_loop rest dateTime
  end.

Definition isAvailable (d : Doctor) (dateTime : string) : bool :=
  isAvailable_loop (appointments d) dateTime.

(** ** Appointment.h and HospitalVisitCard.h *)

(** An [Appointment] owns copies of the doctor and of the patient, taken when
    it is constructed. *)
Record Appointment : Type := mkAppointment {
  _dateTime : string;
  _doctor : Doctor;
  _patient : Patient
}.

Record HospitalVisitCard : Type := mkVisitCard {
  vc_doctor : Doctor;
  vc_patient : Patient;
  vc_dateTime : string;
  vc_diagnosis : string
}.

Definition getPatientName (c : HospitalVisitCard) : string := getName (vc_patient c).

(** ** Registry.h: the state *)

Record Registry : Type := mkRegistry {
  _visitCards : list HospitalVisitCard;
  _doctors : list Doctor;
  _patients : list Patient;
  _appointments : list Appointment
}.

Definition default_doctors : list Doctor :=
  [ Doctor_new "John Smith"; Doctor_new "Emily Johnson"; Doctor_new "David Brown";
    Doctor_new "Sarah Lee"; Doctor_new "Michael Wilson"; Doctor_new "Alexandra Garcia";
    Doctor_new "Matthew Taylor"; Doctor_new "Olivia Martinez" ].

Definition default_patients : list Patient :=
  [ Patient_new "Alice Smith" "23.08.1997"; Patient_new "Bob Johnson" "22.06.2000";
    Patient_new "Charlie Brown" "12.01.1998"; Patient_new "Diana Davis" "03.03.2003";
    Patient_new "Eva Martinez" "02.08.2008"; Patient_new "Frank Lopez" "14.02.2012";
    Patient_new "Grace Lee" "14.08.2012"; Patient_new "Henry Jackson" "22.08.2006" ].

(** The registry as its member initialisers leave it. *)
Definition Registry_new : Registry := mkRegistry [] default_doctors default_patients [].

Definition WORK_START_HOUR : nat := 8.
Definition WORK_END_HOUR : nat := 18.
Definition APPOINTMENT_DURATION : nat := 30.

(** What a method runs in: the registry, the [Doctor] objects that live
    outside it (locals of a caller, such as the copy made by
    [Doctor doctor = appointment->getDoctor()] in the menu), and the lines
    [InputOutput::printMsg] has written. *)
Record World : Type := mkWorld {
  registry : Registry;
  locals : list Doctor;
  console : list string
}.

Definition World_new : World := mkWorld Registry_new [] [].

(** ** The monad of methods *)

Inductive outcome (A : Type) : Type :=
| Returned (a : A)
| Thrown (what : string)   (* a [std::runtime_error] in flight *)
| Undefined.               (* [operator[]] past the end, a dangling reference *)
Arguments Returned {A} a.
Arguments Thrown {A} what.
Arguments Undefined {A}.

Definition M (A : Type) : Type := World → outcome A * World.

#[export] Instance M_ret : MRet M := λ A a w, (Returned a, w).
#[export] Instance M_bind : MBind M := λ A B f m w,
  match m w with
  | (Returned a, w') => f a w'
  | (Thrown what, w') => (Thrown what, w')
  | (Undefined, w') => (Undefined, w')
  end.

Definition throw {A : Type} (what : string) : M A := λ w, (Thrown what, w).
Definition undefined {A : Type} : M A := λ w, (Undefined, w).
Definition gets {A : Type} (f : Registry → A) : M A := λ w, (Returned (f (registry w)), w).
Definition modify (f : Registry → Registry) : M unit :=
  λ w, (Returned (), mkWorld (f (registry w)) (locals w) (console w)).
(** [InputOutput::printMsg] *)
Definition printMsg (prompt : string) : M unit :=
  λ w, (Returned (), mkWorld (registry w) (locals w) (console w ++ [prompt])).

Definition set_doctors (ds : list Doctor) (r : Registry) : Registry :=
  mkRegistry (_visitCards r) ds (_patients r) (_appointments r).
Definition set_patients (ps : list Patient) (r : Registry) : Registry :=
  mkRegistry (_visitCards r) (_doctors r) ps (_appointments r).
Definition set_appointments (apps : list Appointment) (r : Registry) : Registry :=
  mkRegistry (_visitCards r) (_doctors r) (_patients r) apps.
Definition set_visitCards (cs : list HospitalVisitCard) (r : Registry) : Registry :=
  mkRegistry cs (_doctors r) (_patients r) (_appointments r).

(** The state a call leaves behind, however it ends. *)
Definition state_after {A : Type} (m : M A) (w : World) : World := (m w).2.
Definition result_of {A : Type} (m : M A) (w : World) : outcome A := (m w).1.

(** ** Registry.h: lookups *)

(** The range-for of [findDoctorByName] and [findPatientByName]: the index
    of the first person with that name. *)
Fixpoint find_by_name (people : list AbstractPerson) (n : string) : option nat :=
  match people with
  | [] => None
  | person :: rest =>
      if String.eqb (getName person) n then Some 0
      else S <$> find_by_name rest n
  end.

Fixpoint patientExists_loop (patients : list Patient) (n : string) : bool :=
  match patients with
  | [] => false
  | patient :: rest =>
      if String.eqb (getName patient) n then true else patientExists_loop rest n
  end.

Definition patientExists (n : string) : M bool :=
  patients ← gets _patients;
  mret (patientExists_loop patients n).

(** Returns the index standing for the [Doctor &]. *)
Definition findDoctorByName (n : string) : M nat :=
  doctors ← gets _doctors;
  match find_by_name doctors n with
  | Some i => mret i
  | None => throw "Doctor not found."
  end.

Definition findPatientByName (n : string) : M nat :=
  patients ← gets _patients;
  match find_by_name patients n with
  | Some i => mret i
  | None => throw "Patient not found."
  end.

(** [getByIndex]: bounds-checked access, [std::out_of_range] otherwise. *)
Definition getByIndex {T : Type} (index : Z) (items : list T) : M T :=
  if bool_decide (0 ≤ index ∧ index < Z.of_nat (length items))%Z then
    match items !! Z.to_nat index with
    | Some x => mret x
    | None => undefined
    end
  else throw "Invalid index.".

Definition doctor_at (i : nat) : M Doctor :=
  doctors ← gets _doctors;
  match doctors !! i with
  | Some d => mret d
  | None => undefined
  end.

Definition patient_at (j : nat) : M Patient :=
  patients ← gets _patients;
  match patients !! j with
  | Some p => mret p
  | None => undefined
  end.

Definition update_doctor (i : nat) (f : Doctor → Doctor) : M unit :=
  modify (λ r, set_doctors (alter f i (_doctors r)) r).

Definition update_patient (j : nat) (f : Patient → Patient) : M unit :=
  modify (λ r, set_patients (alter f j (_patients r)) r).

Definition push_appointment (a : Appointment) : M unit :=
  modify (λ r, set_appointments (_appointments r ++ [a]) r).

(** ** Registry.h: the default schedule *)

Definition defaultTime : list string :=
  [" 17:00"; " 12:30"; " 08:30"; " 14:00"; " 13:30"; " 09:00"; " 15:00"; " 10:00"].

(** [(defaultTimeIndex - 1 + defaultTime.size()) % defaultTime.size()]: the
    [int] is converted to the 64-bit [size_t] of the other operand, so the
    sum wraps modulo 2^64 before the remainder is taken. *)
Definition next_defaultTimeIndex (defaultTimeIndex : Z) : Z :=
  ((((defaultTimeIndex - 1) `mod` 2 ^ 64 + Z.of_nat (length defaultTime)) `mod` 2 ^ 64)
     `mod` Z.of_nat (length defaultTime))%Z.

(** [for (int i = lo; i < hi; ++i)] with a body that does not assign [i]:
    [count] iterations from [i] on, the loop-carried locals threaded as [s]. *)
Fixpoint for_range {L : Type} (count i : nat) (body : nat → L → M L) (s : L) : M L :=
  match count with
  | 0 => mret s
  | S count' => s' ← body i s; for_range count' (S i) body s'
  end.

Definition for_int {L : Type} (lo hi : nat) (body : nat → L → M L) (s : L) : M L :=
  for_range (hi - lo) lo body s.

(** The body of the inner loop of [scheduleDefaulteAppointmentsForDate];
    the loop-carried local is [defaultTimeIndex]. *)
Definition bookDefault (date : string) (i j : nat) (defaultTimeIndex : Z) : M Z :=
  time ← (if bool_decide (0 ≤ defaultTimeIndex)%Z then
            match defaultTime !! Z.to_nat defaultTimeIndex with
            | Some t => mret t
            | None => undefined
            end
          else undefined);
  let dateTime := date +:+ time in
  doctor ← doctor_at i;
  patient ← patient_at j;
  update_doctor i (addAppointment dateTime (getName patient) (getName doctor));;
  update_patient j (addAppointment dateTime (getName patient) (getName doctor));;
  doctor' ← doctor_at i;
  patient' ← patient_at j;
  push_appointment (mkAppointment dateTime doctor' patient');;
  mret (next_defaultTimeIndex defaultTimeIndex).

Definition scheduleDefaulteAppointmentsForDate (date : string) (defaultTimeIndex : Z)
    (doctorCount patientCount startIndex : nat) : M unit :=
  for_int startIndex doctorCount (λ i defaultTimeIndex,
    for_int startIndex patientCount (λ j defaultTimeIndex,
      bookDefault date i j defaultTimeIndex) defaultTimeIndex) defaultTimeIndex;;
  mret ().

(** [getTodayDate()] and [getTomorrowDate()] read the clock; their results
    are the two parameters. *)
Definition generateDefaultAppointments (today_date tomorrow_date : string) : M unit :=
  doctorCount ← gets (λ r, length (_doctors r) / 2);
  patientCount ← gets (λ r, length (_patients r) / 2);
  scheduleDefaulteAppointmentsForDate today_date 0 doctorCount patientCount 0;;
  doctorCount ← gets (λ r, length (_doctors r));
  patientCount ← gets (λ r, length (_patients r));
  scheduleDefaulteAppointmentsForDate tomorrow_date 7 doctorCount patientCount 4.

(** ** Registry.h: cancelling, visit cards, patients *)

(** The strings the lambda of [cancelAppointment] compares:
    [app.getDateTime()], [app.getPatient().getName()] and
    [app.getDoctor().getName()]. *)
Definition appointment_field (f : Field) (app : Appointment) : string :=
  match f with
  | DateTime => _dateTime app
  | PatientName => getName (_patient app)
  | DoctorName => getName (_doctor app)
  end.

Definition moved_from_person : AbstractPerson := mkPerson EmptyString EmptyString [].

Definition moved_from_appointment : Appointment :=
  mkAppointment EmptyString moved_from_person moved_from_person.

(** The vectors [cancelAppointment] rewrites: the global list, the list of
    the doctor it finds and the list of the patient it finds. *)
Inductive Place : Type :=
| GlobalList
| DoctorList (i : nat)
| PatientList (j : nat).

#[export] Instance Place_eq_dec : EqDecision Place.
Proof. solve_decision. Defined.

(** What a [string &] argument of [cancelAppointment] refers to: a string
    that the call does not write (a local of the caller, say), given by its
    content; or one of the three compared strings of element [k] of one of
    the vectors the call rewrites, as [getAppointments()] hands them out. *)
Inductive StringRef : Type :=
| Own (s : string)
| Entry (pl : Place) (k : nat) (f : Field).

(** The string a reference refers to, as long as it is alive. *)
Definition content (r : Registry) (ref : StringRef) : option string :=
  match ref with
  | Own s => Some s
  | Entry GlobalList k f => appointment_field f <$> _appointments r !! k
  | Entry (DoctorList i) k f =>
      d ← _doctors r !! i; entry_field f <$> appointments d !! k
  | Entry (PatientList j) k f =>
      p ← _patients r !! j; entry_field f <$> appointments p !! k
  end.

(** The reference as seen while the vector at [pl] is rewritten. *)
Definition arg_at (r : Registry) (pl : Place) (ref : StringRef) : Arg :=
  match ref with
  | Own s => Outside s
  | Entry pl' k f =>
      if decide (pl' = pl) then Inside k f
      else match content r ref with
           | Some s => Outside s
           | None => Dangling
           end
  end.

Definition read (ref : StringRef) : M string := λ w,
  match content (registry w) ref with
  | Some s => (Returned s, w)
  | None => (Undefined, w)
  end.

(** [findDoctorByName] and [findPatientByName] handed a reference: the
    loop compares the string referred to with the name of each person in
    turn, so that no string is read where the vector is empty. *)
Definition find_through (people : Registry → list AbstractPerson)
    (find : string → M nat) (n : StringRef) : M nat := λ w,
  match content (registry w) n with
  | Some s => find s w
  | None =>
      match people (registry w) with
      | [] => find EmptyString w
      | _ :: _ => (Undefined, w)
      end
  end.

(** The erase-remove of [cancelAppointment] on [_appointments]. *)
Definition erase_appointments (dateTime patientName doctorName : StringRef) : M unit := λ w,
  let r := registry w in
  match erase_remove_if appointment_field moved_from_appointment
          (arg_at r GlobalList dateTime) (arg_at r GlobalList patientName)
          (arg_at r GlobalList doctorName) (_appointments r) with
  | Some apps => (Returned (), mkWorld (set_appointments apps r) (locals w) (console w))
  | None => (Undefined, w)
  end.

(** [doctor.deleteAppointment(dateTime, patientName, doctorName)] for the
    [Doctor &] that is [_doctors[i]]. *)
Definition delete_from_doctor (i : nat) (dateTime patientName doctorName : StringRef)
    : M unit := λ w,
  let r := registry w in
  match d ← _doctors r !! i;
        deleteAppointment (arg_at r (DoctorList i) dateTime)
          (arg_at r (DoctorList i) patientName) (arg_at r (DoctorList i) doctorName) d with
  | Some d' => (Returned (), mkWorld (set_doctors (<[i := d']> (_doctors r)) r)
                                     (locals w) (console w))
  | None => (Undefined, w)
  end.

(** [patient.deleteAppointment(dateTime, patientName, doctorName)] for the
    [Patient &] that is [_patients[j]]. *)
Definition delete_from_patient (j : nat) (dateTime patientName doctorName : StringRef)
    : M unit := λ w,
  let r := registry w in
  match p ← _patients r !! j;
        deleteAppointment (arg_at r (PatientList j) dateTime)
          (arg_at r (PatientList j) patientName) (arg_at r (PatientList j) doctorName) p with
  | Some p' => (Returned (), mkWorld (set_patients (<[j := p']> (_patients r)) r)
                                     (locals w) (console w))
  | None => (Undefined, w)
  end.

Definition cancelAppointment (dateTime patientName doctorName : StringRef) : M unit :=
  erase_appointments dateTime patientName doctorName;;
  doctor ← find_through _doctors findDoctorByName doctorName;
  delete_from_doctor doctor dateTime patientName doctorName;;
  patient ← find_through _patients findPatientByName patientName;
  delete_from_patient patient dateTime patientName doctorName;;
  dateTime' ← read dateTime;
  patientName' ← read patientName;
  printMsg ("Appointment on " +:+ dateTime' +:+ " canceled for patient " +:+ patientName').

Definition getVisitCardsForPatient (patient : Patient) : M (list HospitalVisitCard) :=
  visitCards ← gets _visitCards;
  mret (foldl (λ patientVisitCards visitCard,
                 if String.eqb (getPatientName visitCard) (getName patient)
                 then patientVisitCards ++ [visitCard]
                 else patientVisitCards) [] visitCards).

Definition addHospitalVisitCard (doctor : Doctor) (patient : Patient)
    (dateTime diagnosis : string) : M HospitalVisitCard :=
  let visitCard := mkVisitCard doctor patient dateTime diagnosis in
  modify (λ r, set_visitCards (_visitCards r ++ [visitCard]) r);;
  mret visitCard.

Definition addPatient (n age : string) : M Patient :=
  b ← patientExists n;
  if b : bool then
    printMsg ("Patient " +:+ n +:+ " already exists.");;
    found ← findPatientByName n;
    patient_at found
  else
    let patient := Patient_new n age in
    modify (λ r, set_patients (_patients r ++ [patient]) r);;
    printMsg ("Patient " +:+ n +:+ " added to the registry.");;
    mret patient.

(** ** Registry.h: booking *)

(** What a [Doctor &] argument can refer to: an element of the registry's
    own [_doctors], or a [Doctor] object of the caller. *)
Inductive DoctorRef : Type :=
| InRegistry (i : nat)
| InCaller (k : nat).

Definition read_doctor (ref : DoctorRef) : M Doctor := λ w,
  match ref with
  | InRegistry i =>
      match _doctors (registry w) !! i with
      | Some d => (Returned d, w)
      | None => (Undefined, w)
      end
  | InCaller k =>
      match locals w !! k with
      | Some d => (Returned d, w)
      | None => (Undefined, w)
      end
  end.

Definition write_doctor (ref : DoctorRef) (f : Doctor → Doctor) : M unit := λ w,
  match ref with
  | InRegistry i =>
      (Returned (), mkWorld (set_doctors (alter f i (_doctors (registry w))) (registry w))
                            (locals w) (console w))
  | InCaller k =>
      (Returned (), mkWorld (registry w) (alter f k (locals w)) (console w))
  end.

(** Of the [Patient &] argument only [getName()] is read, and no method
    changes a name: the argument is taken by value. *)
Definition scheduleAppointment (dateTime : string) (doctor : DoctorRef)
    (patient : Patient) : M unit :=
  d ← read_doctor doctor;
  if isAvailable d dateTime then
    write_doctor doctor (addAppointment dateTime (getName patient) (getName d));;
    registeredPatient ← findPatientByName (getName patient);
    update_patient registeredPatient
      (addAppointment dateTime (getName patient) (getName d));;
    d' ← read_doctor doctor;
    p' ← patient_at registeredPatient;
    push_appointment (mkAppointment dateTime d' p');;
    printMsg ("Appointment scheduled for " +:+ dateTime +:+ " with Dr. " +:+ getName d'
              +:+ " for patient " +:+ getName p')
  else
    printMsg ("Sorry, Dr. " +:+ getName d +:+ " is not available at " +:+ dateTime
              +:+ ". Please choose another time.").

(** ** Registry.h: the slot generator *)

Definition decimal (n : nat) : string := NilZero.string_of_uint (Nat.to_uint n).

(** The conversion [%02d] of a non-negative [int]. *)
Definition fmt_02d (n : nat) : string :=
  let digits := decimal n in
  if Nat.ltb (String.length digits) 2 then "0" +:+ digits else digits.

(** [snprintf(buffer, size, "%02d:%02d", hour, minute)]: at most [size - 1]
    characters are stored. *)
Definition snprintf_time (size hour minute : nat) : string :=
  String.substring 0 (size - 1) (fmt_02d hour +:+ ":" +:+ fmt_02d minute).

(** [for (int i = lo; i < bound; i += step)], the locals of the enclosing
    function threaded as [s]; [fuel] bounds the number of iterations. *)
Fixpoint for_step {L : Type} (fuel i bound step : nat) (body : nat → L → L) (s : L) : L :=
  match fuel with
  | 0 => s
  | S fuel' =>
      if Nat.ltb i bound then for_step fuel' (i + step) bound step body (body i s) else s
  end.

Definition getAvailableTimes (date : string) : M (list (string * string)) :=
  doctors ← gets _doctors;
  mret (foldl (λ availableTimes doctor,
    for_step WORK_END_HOUR WORK_START_HOUR WORK_END_HOUR 1 (λ hour availableTimes,
      for_step 60 0 60 APPOINTMENT_DURATION (λ minute availableTimes,
        let time := snprintf_time 10 hour minute in
        let dateTime := (date +:+ " ") +:+ time in
        if isAvailable doctor dateTime
        then availableTimes ++ [(dateTime, getName doctor)]
        else availableTimes) availableTimes) availableTimes) [] doctors).

Definition getAvailableTimesForDoctor (date doctorName : string)
    : M (list (string * string)) :=
  allAvailableTimes ← getAvailableTimes date;
  mret (foldl (λ availableTimes timeDoctorPair,
                 if String.eqb timeDoctorPair.2 doctorName
                 then availableTimes ++ [timeDoctorPair]
                 else availableTimes) [] allAvailableTimes).

(** [std::set<string>] is a [gset string]. *)
Definition getAvailableDoctors (date : string) : M (list string) :=
  availableTimes ← getAvailableTimes date;
  let uniqueDoctors : gset string :=
    foldl (λ uniqueDoctors timeDoctorPair, {[ timeDoctorPair.2 ]} ∪ uniqueDoctors)
          ∅ availableTimes in
  doctors ← gets _doctors;
  mret (foldl (λ availableDoctors doctor,
                 if bool_decide (getName doctor ∈ uniqueDoctors)
                 then availableDoctors ++ [getName doctor]
                 else availableDoctors) [] doctors).

(** ** Sequences of calls *)

(** A call of a public method, with its arguments. *)
Inductive Call : Type :=
| GenerateDefaultAppointments (today_date tomorrow_date : string)
| ScheduleAppointment (dateTime : string) (doctor : DoctorRef) (patient : Patient)
| CancelAppointment (dateTime patientName doctorName : StringRef)
| AddPatient (n age : string)
| AddHospitalVisitCard (doctor : Doctor) (patient : Patient) (dateTime diagnosis : string)
| PatientExists (n : string)
| GetAvailableTimes (date : string)
| GetAvailableTimesForDoctor (date doctorName : string)
| GetAvailableDoctors (date : string)
| GetVisitCardsForPatient (patient : Patient).

Definition forget {A : Type} (m : M A) : M unit := m ≫= λ _, mret ().

Definition perform (c : Call) : M unit :=
  match c with
  | GenerateDefaultAppointments today_date tomorrow_date =>
      generateDefaultAppointments today_date tomorrow_date
  | ScheduleAppointment dateTime doctor patient =>
      scheduleAppointment dateTime doctor patient
  | CancelAppointment dateTime patientName doctorName =>
      cancelAppointment dateTime patientName doctorName
  | AddPatient n age => forget (addPatient n age)
  | AddHospitalVisitCard doctor patient dateTime diagnosis =>
      forget (addHospitalVisitCard doctor patient dateTime diagnosis)
  | PatientExists n => forget (patientExists n)
  | GetAvailableTimes date => forget (getAvailableTimes date)
  | GetAvailableTimesForDoctor date doctorName =>
      forget (getAvailableTimesForDoctor date doctorName)
  | GetAvailableDoctors date => forget (getAvailableDoctors date)
  | GetVisitCardsForPatient patient => forget (getVisitCardsForPatient patient)
  end.

(** One call takes [w] to [w']: the call ran without undefined behaviour
    and left [w'], whether it returned or threw (a caller may catch). *)
Definition step (c : Call) (w w' : World) : Prop :=
  result_of (perform c) w ≠ Undefined ∧ state_after (perform c) w = w'.

(** ** What the slot generator is specified to return *)

(** The working-hours slots of a day: hour in [8, 18), minute in {0, 30},
    hour-major. *)
Definition working_slots : list (nat * nat) :=
  hour ← seq 8 10; minute ← [0; 30]; [(hour, minute)].

Definition digit (n : nat) : ascii := ascii_of_nat (48 + n).

(** [HH:MM], 24h and zero-padded. *)
Definition HHMM (slot : nat * nat) : string :=
  String (digit (slot.1 / 10)) (String (digit (slot.1 `mod` 10))
    (String ":" (String (digit (slot.2 / 10)) (String (digit (slot.2 `mod` 10)) EmptyString)))).

(** The doctor has an appointment whose dateTime is exactly [dateTime]. *)
Definition booked_at (d : Doctor) (dateTime : string) : Prop :=
  dateTime ∈ (appointments d).*1.

#[export] Instance booked_at_dec (d : Doctor) (dateTime : string) :
  Decision (booked_at d dateTime).
Proof. unfold booked_at. apply _. Defined.

Definition slot_of (date : string) (slot : nat * nat) : string :=
  date +:+ " " +:+ HHMM slot.

(** Doctor-major, then time-ascending: the free slots of each doctor. *)
Definition free_slots (date : string) (doctors : list Doctor) : list (string * string) :=
  doctor ← doctors;
  slot ← working_slots;
  if decide (booked_at doctor (slot_of date slot)) then []
  else [(slot_of date slot, name doctor)].

(** An appointment as the triple it is mirrored as in the persons' lists. *)
Definition triple (a : Appointment) : AppointmentRef :=
  (_dateTime a, (getName (_patient a), getName (_doctor a))).

(** The key no two appointments may share. *)
Definition booking_key (a : Appointment) : string * string :=
  (getName (_doctor a), _dateTime a).

(** The worlds a sequence of calls leads to from [w0], each call allowed
    in the world it is made in. *)
Inductive reachable_by (allowed : World → Call → Prop) (w0 : World) : World → Prop :=
| reach_start : reachable_by allowed w0 w0
| reach_step (w w' : World) (c : Call) :
    reachable_by allowed w0 w → allowed w c → step c w w' →
    reachable_by allowed w0 w'.

Definition any_call (w : World) (c : Call) : Prop := True.

(** The string handed over is a string of the caller's own: it is no part
    of a vector that [cancelAppointment] rewrites. *)
Definition own_string (ref : StringRef) : Prop :=
  match ref with
  | Own _ => True
  | Entry _ _ _ => False
  end.



(** Calls whose [scheduleAppointment] is handed one of the registry's own
    doctor records and a patient whose name is registered. *)
Definition registered_booking_call (w : World) (c : Call) : Prop :=
  match c with
  | ScheduleAppointment _ (InCaller _) _ => False
  | ScheduleAppointment _ (InRegistry _) patient =>
      patientExists_loop (_patients (registry w)) (getName patient) = true
  | _ => True
  end.

(** The same, and [cancelAppointment] is handed strings of the caller's
    own. *)
Definition registered_call (w : World) (c : Call) : Prop :=
  match c with
  | ScheduleAppointment _ (InCaller _) _ => False
  | ScheduleAppointment _ (InRegistry _) patient =>
      patientExists_loop (_patients (registry w)) (getName patient) = true
  | CancelAppointment dateTime patientName doctorName =>
      own_string dateTime ∧ own_string patientName ∧ own_string doctorName
  | _ => True
  end.

(** Among [people], the one named [n] has the entry [e] in its list. *)
Definition holds (people : list AbstractPerson) (n : string) (e : AppointmentRef) : Prop :=
  ∃ d, d ∈ people ∧ getName d = n ∧ e ∈ appointments d.

(** Where an entry (dateTime, (patientName, doctorName)) can be held: in the
    list of the doctor it names, in the list of the patient it names, in the
    global list. *)
Definition in_doctor_list (r : Registry) (e : AppointmentRef) : Prop :=
  holds (_doctors r) e.2.2 e.

Definition in_patient_list (r : Registry) (e : AppointmentRef) : Prop :=
  holds (_patients r) e.2.1 e.

Definition in_global_list (r : Registry) (e : AppointmentRef) : Prop :=
  ∃ a, a ∈ _appointments r ∧ triple a = e.

Definition mirrored (r : Registry) : Prop :=
  ∀ e, (in_doctor_list r e ↔ in_patient_list r e) ∧
       (in_patient_list r e ↔ in_global_list r e).

Definition no_double_booking (r : Registry) : Prop :=
  NoDup (booking_key <$> _appointments r).

(** [addPatient(n, dob1)] then [addPatient(n, dob2)] from [w]: exactly one
    patient named [n] is left, its date of birth is [dob1], it is what the
    second call returns, and the second call leaves the patient list as the
    first call left it. *)
Definition first_write_wins (n dob1 dob2 : string) (w : World) : Prop :=
  let w1 := state_after (addPatient n dob1) w in
  let w2 := state_after (addPatient n dob2) w1 in
  (∃ p, filter (λ q, getName q = n) (_patients (registry w2)) = [p] ∧
        dateOfBirth p = dob1 ∧
        result_of (addPatient n dob2) w1 = Returned p) ∧
  _patients (registry w2) = _patients (registry w1).

(** The elements of [v] that [pred] rejects, in their order: what
    [std::remove_if] followed by [erase] leaves where the predicate does not
    read the vector. *)
Fixpoint purge {A : Type} (pred : A → bool) (v : list A) : list A :=
  match v with
  | [] => []
  | x :: rest => if pred x then purge pred rest else x :: purge pred rest
  end.

(** The entry of a person's list is the triple. *)
Definition matches (dateTime patientName doctorName : string)
    (appointment : AppointmentRef) : bool :=
  String.eqb appointment.1 dateTime &&
  String.eqb appointment.2.1 patientName &&
  String.eqb appointment.2.2 doctorName.

(** The appointment of the global list is for the triple. *)
Definition cancels (dateTime patientName doctorName : string) (app : Appointment) : bool :=
  String.eqb (_dateTime app) dateTime &&
  String.eqb (getName (_patient app)) patientName &&
  String.eqb (getName (_doctor app)) doctorName.

(** The person with the entries that are the triple taken off the list. *)
Definition delete_matching (dateTime patientName doctorName : string)
    (p : AbstractPerson) : AbstractPerson :=
  mkPerson (name p) (dateOfBirth p)
           (purge (matches dateTime patientName doctorName) (appointments p)).

(** A person with every entry equal to [e] taken off the list. *)
Definition without (e : AppointmentRef) (p : AbstractPerson) : AbstractPerson :=
  mkPerson (name p) (dateOfBirth p) (filter (λ x, x ≠ e) (appointments p)).

(** No entry of the registry matches the triple in all three fields. *)
Definition unmatched (dateTime patientName doctorName : string) (r : Registry) : Prop :=
  (∀ a, a ∈ _appointments r → triple a ≠ (dateTime, (patientName, doctorName))) ∧
  (∀ d, d ∈ _doctors r → (dateTime, (patientName, doctorName)) ∉ appointments d) ∧
  (∀ p, p ∈ _patients r → (dateTime, (patientName, doctorName)) ∉ appointments p).

(** Cancelling what was never booked returns normally and changes nothing
    in the registry. *)
Definition silent_noop (dateTime patientName doctorName : StringRef) (w : World) : Prop :=
  ∀ dt pn dn,
    content (registry w) dateTime = Some dt →
    content (registry w) patientName = Some pn →
    content (registry w) doctorName = Some dn →
    unmatched dt pn dn (registry w) →
    result_of (cancelAppointment dateTime patientName doctorName) w = Returned () ∧
    registry (state_after (cancelAppointment dateTime patientName doctorName) w) = registry w.

(** From [w] to [w']: the appointments that are for the triple [e], and no
    others, have been removed from the global list, from the list of the
    doctor [i] and from the list of the patient [j]; nothing else in the
    registry changed. *)
Definition removes_matches (e : AppointmentRef) (i j : nat) (w w' : World) : Prop :=
  _appointments (registry w') = filter (λ a, triple a ≠ e) (_appointments (registry w)) ∧
  _doctors (registry w') = alter (without e) i (_doctors (registry w)) ∧
  _patients (registry w') = alter (without e) j (_patients (registry w)) ∧
  _visitCards (registry w') = _visitCards (registry w).

(** What [cancelAppointment] is specified to do with the triple the three
    arguments hold when the call is made, the doctor and the patient it names
    being [_doctors[i]] and [_patients[j]]. *)
Definition cancels_as_specified (dateTime patientName doctorName : StringRef)
    (w : World) : Prop :=
  ∀ dt pn dn i j,
    content (registry w) dateTime = Some dt →
    content (registry w) patientName = Some pn →
    content (registry w) doctorName = Some dn →
    find_by_name (_doctors (registry w)) dn = Some i →
    find_by_name (_patients (registry w)) pn = Some j →
    removes_matches (dt, (pn, dn)) i j w
      (state_after (cancelAppointment dateTime patientName doctorName) w).

(** The fresh registry after two bookings: Alice Smith with John Smith at
    09:00, then Bob Johnson with Emily Johnson at 09:30. *)
Definition two_bookings : World :=
  state_after (scheduleAppointment "2025-01-10 09:30" (InRegistry 1)
                 (Patient_new "Bob Johnson" "22.06.2000"))
    (state_after (scheduleAppointment "2025-01-10 09:00" (InRegistry 0)
                    (Patient_new "Alice Smith" "23.08.1997")) World_new).

(** The strings of the first appointment of the global list, as
    [getAppointments()[0]] hands them out: [getDateTime()],
    [getPatient().getName()] and [getDoctor().getName()]. *)
Definition of_first_appointment (f : Field) : StringRef := Entry GlobalList 0 f.

(** [cancelAppointment] handed the three strings of the first appointment
    of the global list. *)
Definition cancel_first_appointment : M unit :=
  cancelAppointment (of_first_appointment DateTime) (of_first_appointment PatientName)
                    (of_first_appointment DoctorName).

(** The object a [Doctor &] refers to. *)
Definition doctor_of (w : World) (ref : DoctorRef) : option Doctor :=
  match ref with
  | InRegistry i => _doctors (registry w) !! i
  | InCaller k => locals w !! k
  end.

Definition appended (e : AppointmentRef) (p : AbstractPerson) : AbstractPerson :=
  mkPerson (name p) (dateOfBirth p) (appointments p ++ [e]).


(** From [w] to [w'] no doctor and no patient was added, removed or
    renamed, and the visit cards and the caller's doctors are as they
    were. *)
Definition same_people (w w' : World) : Prop :=
  getName <$> _doctors (registry w') = getName <$> _doctors (registry w) ∧
  getName <$> _patients (registry w') = getName <$> _patients (registry w) ∧
  _visitCards (registry w') = _visitCards (registry w) ∧
  locals w' = locals w.



(** The world [write_doctor] leaves. *)
Definition written (ref : DoctorRef) (f : Doctor → Doctor) (w : World) : World :=
  (write_doctor ref f w).2.

(** The dateTimes [getAvailableTimesForDoctor] lists. *)
Definition available_times_for (date doctorName : string) (w : World) : list string :=
  match result_of (getAvailableTimesForDoctor date doctorName) w with
  | Returned availableTimes => availableTimes.*1
  | _ => []
  end.

(** The invariant behind [mirrored]: names are keys, every entry of a
    person's list carries that person's name and is in the global list, and
    every appointment of the global list is in the lists of its doctor and
    of its patient. *)
Definition consistent (r : Registry) : Prop :=
  NoDup (getName <$> _doctors r) ∧
  NoDup (getName <$> _patients r) ∧
  (∀ n e, holds (_doctors r) n e → e.2.2 = n ∧ in_global_list r e) ∧
  (∀ n e, holds (_patients r) n e → e.2.1 = n ∧ in_global_list r e) ∧
  (∀ e, in_global_list r e → in_doctor_list r e ∧ in_patient_list r e).


(** What the default schedule keeps: a property [P] of the registry that
    bookings keep, and the sizes of the two vectors it indexes. *)
Definition seedable (P : Registry → Prop) (nd np : nat) (w : World) : Prop :=
  P (registry w) ∧
  length (_doctors (registry w)) = nd ∧ length (_patients (registry w)) = np.

(** [P] is kept by the three appends of a booking. *)
Definition kept_by_booking (P : Registry → Prop) : Prop :=
  ∀ (r r' : Registry) (dateTime : string) (i j : nat) (d : Doctor) (p : Patient)
    (a : Appointment),
    let e := (dateTime, (getName p, getName d)) in
    P r →
    _doctors r !! i = Some d → _patients r !! j = Some p →
    _doctors r' = alter (appended e) i (_doctors r) →
    _patients r' = alter (appended e) j (_patients r) →
    _appointments r' = _appointments r ++ [a] → triple a = e →
    P r'.

(** The doctors are the eight the registry is constructed with, by name. *)
Definition default_staff (r : Registry) : Prop :=
  getName <$> _doctors r = getName <$> default_doctors.

(** The default schedule as specified: for [date], the doctors and patients
    at indices [first .. first + 3], doctor-major, the k-th booking taking
    the time at index [start - k] modulo 8 of the fixed list. *)
Definition seed_half (date : string) (first : nat) (start : Z) : list AppointmentRef :=
  i ← seq first 4;
  j ← seq first 4;
  let k := Z.of_nat (4 * (i - first) + (j - first)) in
  match defaultTime !! Z.to_nat ((start - k) `mod` 8),
        default_doctors !! i, default_patients !! j with
  | Some time, Some d, Some p => [(date +:+ time, (name p, name d))]
  | _, _, _ => []
  end.

Definition seed_bookings (today_date tomorrow_date : string) : list AppointmentRef :=
  seed_half today_date 0 0 ++ seed_half tomorrow_date 4 7.

(** The entries of [bookings] that name the person. *)
Definition bookings_of_doctor (bookings : list AppointmentRef) (d : Doctor) :=
  filter (λ e, e.2.2 = name d) bookings.

Definition bookings_of_patient (bookings : list AppointmentRef) (p : Patient) :=
  filter (λ e, e.2.1 = name p) bookings.


(** ** InputOutput.h and Menu.h: the callers of the registry

    What [InputOutput::getUserChoice] and [getInfo] read from [cin] is a
    parameter of the method that reads it.  Output written to [cout]
    directly, rather than through [printMsg], is not recorded. *)

Definition newline : string := String (ascii_of_nat 10) EmptyString.

(** [InputOutput::getValidChoice]; [choice] is what [getUserChoice] read. *)
Definition getValidChoice {T : Type} (choice : Z) (vec : list T) : M Z :=
  if bool_decide (choice < 1 ∨ choice > Z.of_nat (length vec))%Z then
    printMsg (newline +:+ " Invalid choice. Please try again.");;
    mret (-1)%Z
  else mret choice.

(** [Registry::showAppointments] reads the global list and writes to
    [cout]. *)
Definition showAppointments : M unit :=
  appointments ← gets _appointments;
  mret ().

(** [Menu::getAppointmentFromUser]: the choice is made in a copy of the
    global list, and what [getValidChoice] returns is not tested. *)
Definition getAppointmentFromUser (choice : Z) : M Appointment :=
  showAppointments;;
  appointments ← gets _appointments;
  choice ← getValidChoice choice appointments;
  getByIndex (choice - 1) appointments.

(** [Menu::cancelAppointmentMenu()]: the three strings handed to
    [cancelAppointment] are locals, copied from the menu's own copy of the
    appointment. *)
Definition cancelAppointmentMenu (choice : Z) : M unit :=
  appointment ← getAppointmentFromUser choice;
  let patientName := getName (_patient appointment) in
  let doctorName := getName (_doctor appointment) in
  let dateTime := _dateTime appointment in
  doctor ← findDoctorByName doctorName;
  cancelAppointment (Own dateTime) (Own patientName) (Own doctorName).

(** [Patient::printDetails]: the only line that goes through [printMsg] is
    the one for an empty list. *)
Definition Patient_printDetails (p : Patient) : M unit :=
  if bool_decide (length (appointments p) = 0)
  then printMsg (newline +:+ " No appointments to show " +:+ newline)
  else mret ().

(** [v[index]] of an unchecked [operator[]], [index] an [int]. *)
Definition at_index {T : Type} (v : list T) (index : Z) : M T :=
  if bool_decide (0 ≤ index)%Z then
    match v !! Z.to_nat index with
    | Some x => mret x
    | None => undefined
    end
  else undefined.

(** [Menu::cancelAppointmentMenu] with a pointer to a [Patient]: of the
    patient pointed to only the name is read; the choice is read only where
    the patient has appointments, and is not validated.  [doctorName] and
    [dateTime] are locals, and the patient pointed to is no element of the
    registry. *)
Definition cancelAppointmentMenu_for (patient : Patient) (choice : Z) : M unit :=
  found ← findPatientByName (getName patient);
  registratedPatient ← patient_at found;
  Patient_printDetails registratedPatient;;
  if bool_decide (length (getAppointments registratedPatient) = 0) then mret ()
  else
    let appoinments := getAppointments registratedPatient in
    entry ← at_index appoinments (choice - 1);
    let doctorName := entry.2.2 in
    let dateTime := entry.1 in
    cancelAppointment (Own dateTime) (Own (getName patient)) (Own doctorName).

(** [Menu::addVisitCardMenu] *)
Definition addVisitCardMenu (choice : Z) (diagnosis : string) : M unit :=
  showAppointments;;
  appointments ← gets _appointments;
  choice ← getValidChoice choice appointments;
  appointment ← getByIndex (choice - 1) appointments;
  let patient := _patient appointment in
  let doctor := _doctor appointment in
  let dateTime := _dateTime appointment in
  addHospitalVisitCard doctor patient dateTime diagnosis;;
  printMsg ("Hospital visit card is added for patient " +:+ getName patient).


(** ** helpers.h *)

(** [isValidDate]: [year], [month] and [day] are what [sscanf] stored, and
    [tm_year], [tm_mon] and [tm_mday] the fields of [localtime]. *)
Definition isValidDate (year month day tm_year tm_mon tm_mday : Z) : M bool :=
  if bool_decide (year < tm_year + 1900 ∨
                  (year = tm_year + 1900 ∧ month < tm_mon + 1) ∨
                  (year = tm_year + 1900 ∧ month = tm_mon + 1 ∧ day < tm_mday))%Z
  then printMsg "Invalid date. Date must be today or in the future.";; mret false
  else mret true.

(** ** What the added properties speak of *)

(** Every working-hours slot of every doctor, free or not, doctor-major. *)
Definition all_slots (date : string) (doctors : list Doctor) : list (string * string) :=
  doctor ← doctors; slot ← working_slots; [(slot_of date slot, name doctor)].

(** The doctor is free at some working-hours slot of the date. *)
Definition has_free_slot (date : string) (d : Doctor) : Prop :=
  ∃ slot, slot ∈ working_slots ∧ ¬ booked_at d (slot_of date slot).

(** The names [getAvailableDoctors] is specified by its code to list. *)
Definition names_with_free_slot (date : string) (doctors : list Doctor) : list string :=
  getName <$> filter (λ d, getName d ∈ (free_slots date doctors).*2) doctors.

(** The entry [e] is nowhere in the registry. *)
Definition gone (e : AppointmentRef) (r : Registry) : Prop :=
  ¬ in_global_list r e ∧ ¬ in_doctor_list r e ∧ ¬ in_patient_list r e.

(** The returned value of a run, where it returned. *)
Definition returned {A : Type} (m : M A) (w : World) : option A :=
  match result_of m w with
  | Returned a => Some a
  | _ => None
  end.

(** The patients keep their names distinct, and the eight the registry is
    constructed with stay at the head of the list. *)
Definition patients_kept (r : Registry) : Prop :=
  NoDup (getName <$> _patients r) ∧
  (getName <$> default_patients) `prefix_of` (getName <$> _patients r).

(** The values the loop variable of [for_step] takes. *)
Fixpoint indices (fuel i bound step : nat) : list nat :=
  match fuel with
  | 0 => []
  | S fuel' => if Nat.ltb i bound then i :: indices fuel' (i + step) bound step else []
  end.

(** * Properties *)

(** ** Strings, loops and vectors *)

Lemma append_assoc (a b c : string) : (a +:+ b) +:+ c = a +:+ b +:+ c.
Proof.
  induction a as [|ch a IH]; [done |].
  change (String ch ((a +:+ b) +:+ c) = String ch (a +:+ b +:+ c)). by rewrite IH.
Qed.

Lemma append_inv_head (a b c : string) : a +:+ b = a +:+ c → b = c.
Proof. apply (inj (String.append a)). Qed.

Lemma eqb_true (a b : string) : String.eqb a b = true ↔ a = b.
Proof. apply String.eqb_eq. Qed.

Lemma eqb_false (a b : string) : String.eqb a b = false ↔ a ≠ b.
Proof. apply String.eqb_neq. Qed.

(** A range-for that pushes the elements passing a test is a filter. *)
Lemma foldl_push_filter {A B : Type} (P : A → Prop) `{!∀ x, Decision (P x)}
    (test : A → bool) (f : A → B) (l : list A) (acc : list B) :
  (∀ x, test x = true ↔ P x) →
  foldl (λ acc x, if test x then acc ++ [f x] else acc) acc l = acc ++ (f <$> filter P l).
Proof.
  intros Htest. revert acc.
  induction l as [|x l IH]; intros acc; simpl.
  - by rewrite app_nil_r.
  - rewrite IH, filter_cons. destruct (test x) eqn:Hx.
    + apply Htest in Hx. rewrite decide_True by done.
      by rewrite fmap_cons, <- app_assoc.
    + rewrite decide_False; [done |]. intros HP. apply Htest in HP. congruence.
Qed.

Lemma for_step_foldl {L : Type} (fuel i bound step : nat) (body : nat → L → L) (s : L) :
  for_step fuel i bound step body s = foldl (λ s i, body i s) s (indices fuel i bound step).
Proof.
  revert i s. induction fuel as [|fuel IH]; intros i s; simpl; [done |].
  destruct (Nat.ltb i bound); simpl; [apply IH | done].
Qed.

(** With a positive step, [bound - i] iterations reach the bound: more fuel
    changes nothing, the loop ends by its own test. *)
Lemma indices_enough (fuel fuel' i bound step : nat) :
  0 < step → bound - i ≤ fuel → bound - i ≤ fuel' →
  indices fuel i bound step = indices fuel' i bound step.
Proof.
  intros Hstep. revert fuel' i.
  induction fuel as [|fuel IH]; intros fuel' i Hfuel Hfuel'.
  - destruct fuel' as [|fuel']; simpl; [done |].
    destruct (Nat.ltb_spec i bound); [lia | done].
  - simpl. destruct (Nat.ltb_spec i bound) as [Hlt|Hge].
    + destruct fuel' as [|fuel']; [lia |]. simpl.
      destruct (Nat.ltb_spec i bound); [| lia].
      f_equal. apply IH; lia.
    + destruct fuel' as [|fuel']; simpl; [done |].
      destruct (Nat.ltb_spec i bound); [lia | done].
Qed.

Lemma indices_fuel (fuel i bound step : nat) :
  0 < step → bound - i ≤ fuel →
  indices fuel i bound step = indices (bound - i) i bound step.
Proof. intros. by apply indices_enough. Qed.

Lemma for_step_fuel {L : Type} (fuel i bound step : nat) (body : nat → L → L) (s : L) :
  0 < step → bound - i ≤ fuel →
  for_step fuel i bound step body s = for_step (bound - i) i bound step body s.
Proof. intros. rewrite !for_step_foldl. by rewrite indices_fuel. Qed.

Lemma isAvailable_loop_spec (apps : list AppointmentRef) (dateTime : string) :
  isAvailable_loop apps dateTime = true ↔ dateTime ∉ apps.*1.
Proof.
  induction apps as [|app apps IH]; simpl.
  - split; [intros _; apply not_elem_of_nil | done].
  - rewrite not_elem_of_cons. destruct (String.eqb app.1 dateTime) eqn:E.
    + apply eqb_true in E. split; [done | intros [? _]; congruence].
    + apply eqb_false in E. rewrite IH. split; [intros; split; [congruence | done] | tauto].
Qed.

Lemma isAvailable_spec (d : Doctor) (dateTime : string) :
  isAvailable d dateTime = true ↔ ¬ booked_at d dateTime.
Proof. apply isAvailable_loop_spec. Qed.

Lemma isAvailable_false (d : Doctor) (dateTime : string) :
  isAvailable d dateTime = false ↔ booked_at d dateTime.
Proof.
  destruct (isAvailable d dateTime) eqn:E.
  - apply isAvailable_spec in E. split; [done | tauto].
  - split; [intros _ | done]. destruct (decide (booked_at d dateTime)); [done |].
    apply isAvailable_spec in n. congruence.
Qed.

Lemma elem_of_purge {A : Type} (pred : A → bool) (v : list A) (x : A) :
  x ∈ purge pred v ↔ x ∈ v ∧ pred x = false.
Proof.
  induction v as [|y v IH]; simpl.
  - split; [intros H | intros [H _]]; by apply elem_of_nil in H.
  - destruct (pred y) eqn:Hy; rewrite ?elem_of_cons, IH, ?elem_of_cons.
    + split; [tauto |]. intros [[->|?] ?]; [congruence | tauto].
    + split; [intros [->|?]; tauto | tauto].
Qed.

Lemma purge_filter {A : Type} (pred : A → bool) (v : list A) :
  purge pred v = filter (λ x, pred x = false) v.
Proof.
  induction v as [|y v IH]; simpl; [done |]. rewrite filter_cons.
  destruct (pred y); simpl; by rewrite IH.
Qed.

Lemma purge_id {A : Type} (pred : A → bool) (v : list A) :
  (∀ x, x ∈ v → pred x = false) → purge pred v = v.
Proof.
  induction v as [|y v IH]; simpl; intros H; [done |].
  rewrite (H y) by apply list_elem_of_here.
  f_equal. apply IH. intros x Hx. apply H. by apply list_elem_of_further.
Qed.
Lemma slot_loops {L : Type} (g : nat → nat → L → L) (s : L) :
  for_step WORK_END_HOUR WORK_START_HOUR WORK_END_HOUR 1 (λ hour s,
    for_step 60 0 60 APPOINTMENT_DURATION (λ minute s, g hour minute s) s) s
  = foldl (λ s slot, g slot.1 slot.2 s) s working_slots.
Proof. reflexivity. Qed.

Lemma slot_times :
  Forall (λ slot, snprintf_time 10 slot.1 slot.2 = HHMM slot) working_slots.
Proof. vm_compute. repeat constructor. Qed.

Lemma foldl_push_bind {A B : Type} (F : list B → A → list B) (G : A → list B)
    (l : list A) (acc : list B) :
  (∀ acc x, x ∈ l → F acc x = acc ++ G x) →
  foldl F acc l = acc ++ (l ≫= G).
Proof.
  revert acc. induction l as [|x l IH]; intros acc HF; simpl.
  - by rewrite app_nil_r.
  - rewrite HF by apply list_elem_of_here.
    rewrite IH by (intros; apply HF; by apply list_elem_of_further).
    by rewrite app_assoc.
Qed.

Lemma doctor_slots (date : string) (doctor : Doctor) (acc : list (string * string)) :
  foldl (λ availableTimes slot,
           if isAvailable doctor ((date +:+ " ") +:+ snprintf_time 10 slot.1 slot.2)
           then availableTimes ++
                [((date +:+ " ") +:+ snprintf_time 10 slot.1 slot.2, getName doctor)]
           else availableTimes) acc working_slots
  = acc ++ (slot ← working_slots;
            if decide (booked_at doctor (slot_of date slot)) then []
            else [(slot_of date slot, name doctor)]).
Proof.
  apply foldl_push_bind. intros acc' slot Hslot.
  pose proof (proj1 (Forall_forall _ _) slot_times slot Hslot) as ->.
  rewrite append_assoc. fold (slot_of date slot).
  destruct (isAvailable doctor (slot_of date slot)) eqn:E.
  - apply isAvailable_spec in E. by rewrite decide_False.
  - apply isAvailable_false in E. by rewrite decide_True, app_nil_r.
Qed.

Lemma getAvailableTimes_slots (date : string) (w : World) :
  getAvailableTimes date w = (Returned (free_slots date (_doctors (registry w))), w).
Proof.
  unfold getAvailableTimes, mbind, M_bind, gets, mret, M_ret. cbv beta iota.
  do 2 f_equal. unfold free_slots.
  rewrite <- (app_nil_l (_ ≫= _)).
  apply foldl_push_bind. intros acc doctor _.
  etrans; [| apply doctor_slots].
  apply (slot_loops (λ hour minute availableTimes,
       if isAvailable doctor ((date +:+ " ") +:+ snprintf_time 10 hour minute)
       then availableTimes ++ [((date +:+ " ") +:+ snprintf_time 10 hour minute, getName doctor)]
       else availableTimes)).
Qed.

Lemma working_slot_times :
  HHMM <$> working_slots =
  ["08:00"; "08:30"; "09:00"; "09:30"; "10:00"; "10:30"; "11:00"; "11:30"; "12:00"; "12:30";
   "13:00"; "13:30"; "14:00"; "14:30"; "15:00"; "15:30"; "16:00"; "16:30"; "17:00"; "17:30"].
Proof. reflexivity. Qed.

(** C3: [getAvailableTimes(date)] returns exactly the pairs
    (date + " " + HH:MM, doctorName), for each doctor in registry order and
    each slot with hour in [8, 18) and minute in {0, 30} in ascending order,
    at which that doctor has no appointment with exactly that dateTime. *)
Theorem getAvailableTimes_free_slots (date : string) (w : World) :
  result_of (getAvailableTimes date) w = Returned (free_slots date (_doctors (registry w))).
Proof. unfold result_of. by rewrite getAvailableTimes_slots. Qed.

(** ** Queries *)

Ltac run :=
  unfold mbind, M_bind, mret, M_ret, gets, modify, throw, undefined, printMsg;
  cbv beta iota.

Lemma getAvailableTimesForDoctor_filter (date doctorName : string) (w : World) :
  getAvailableTimesForDoctor date doctorName w =
  (Returned (filter (λ slot, slot.2 = doctorName)
                    (free_slots date (_doctors (registry w)))), w).
Proof.
  unfold getAvailableTimesForDoctor. run.
  rewrite getAvailableTimes_slots.
  rewrite (foldl_push_filter (λ slot, slot.2 = doctorName) _ id).
  - by rewrite list_fmap_id.
  - intros slot. apply eqb_true.
Qed.

(** C9: [getVisitCardsForPatient(p)] returns exactly the visit cards whose
    embedded patient name equals the name of [p], in the order of the
    visit-card store, which is the order of insertion:
    [addHospitalVisitCard] appends at the end. *)
Theorem getVisitCardsForPatient_filter (p : Patient) (w : World) :
  result_of (getVisitCardsForPatient p) w =
    Returned (filter (λ c, name (vc_patient c) = name p) (_visitCards (registry w)))
  ∧ ∀ doctor patient dateTime diagnosis,
      _visitCards (registry (state_after
        (addHospitalVisitCard doctor patient dateTime diagnosis) w)) =
      _visitCards (registry w) ++ [mkVisitCard doctor patient dateTime diagnosis].
Proof.
  split; [| done].
  unfold result_of, getVisitCardsForPatient. run. simpl. f_equal.
  rewrite (foldl_push_filter (λ c, name (vc_patient c) = name p) _ id).
  - by rewrite list_fmap_id.
  - intros c. apply eqb_true.
Qed.

(** C10: the queries leave the world, and so the doctors, the patients, the
    appointments and the visit cards of the registry, as they found them. *)
Theorem queries_are_pure (w : World) :
  (∀ n, state_after (patientExists n) w = w) ∧
  (∀ date, state_after (getAvailableTimes date) w = w) ∧
  (∀ date doctorName, state_after (getAvailableTimesForDoctor date doctorName) w = w) ∧
  (∀ date, state_after (getAvailableDoctors date) w = w) ∧
  (∀ p, state_after (getVisitCardsForPatient p) w = w).
Proof.
  split_and!; intros; unfold state_after.
  - done.
  - by rewrite getAvailableTimes_slots.
  - by rewrite getAvailableTimesForDoctor_filter.
  - unfold getAvailableDoctors. run. by rewrite getAvailableTimes_slots.
  - done.
Qed.

(** ** Lookups by name *)

Lemma patientExists_loop_spec (patients : list Patient) (n : string) :
  patientExists_loop patients n = true ↔ n ∈ getName <$> patients.
Proof.
  induction patients as [|p ps IH]; simpl.
  - split; [done | by intros ?%elem_of_nil].
  - rewrite elem_of_cons. destruct (String.eqb (getName p) n) eqn:E.
    + apply eqb_true in E. split; [by left | done].
    + apply eqb_false in E. rewrite IH. split; [by right | by intros [?|?]].
Qed.

Lemma patientExists_loop_false (patients : list Patient) (n : string) :
  patientExists_loop patients n = false ↔ n ∉ getName <$> patients.
Proof.
  rewrite <- patientExists_loop_spec. destruct (patientExists_loop patients n); split; done.
Qed.

Lemma find_by_name_None (people : list AbstractPerson) (n : string) :
  find_by_name people n = None ↔ n ∉ getName <$> people.
Proof.
  induction people as [|p ps IH]; simpl.
  - split; [intros _; apply not_elem_of_nil | done].
  - rewrite not_elem_of_cons. destruct (String.eqb (getName p) n) eqn:E.
    + apply eqb_true in E. split; [done | by intros [? _]].
    + apply eqb_false in E. rewrite fmap_None.
      split; [intros H%IH; split; [congruence | done] | intros [_ H]; by apply IH].
Qed.

(** The index found is that of the first person with the name. *)
Lemma find_by_name_Some (people : list AbstractPerson) (n : string) (i : nat) :
  find_by_name people n = Some i →
  ∃ p, people !! i = Some p ∧ getName p = n ∧ n ∉ getName <$> take i people.
Proof.
  revert i. induction people as [|q ps IH]; intros i; simpl; [done |].
  destruct (String.eqb (getName q) n) eqn:E.
  - intros [= <-]. apply eqb_true in E. exists q. split_and!; [done..|apply not_elem_of_nil].
  - apply eqb_false in E. intros (j & Hj & ->)%fmap_Some.
    destruct (IH j Hj) as (p & Hp & Hn & Hfirst). exists p. split_and!; [done..|].
    simpl. by apply not_elem_of_cons.
Qed.

Lemma find_by_name_elem_of (people : list AbstractPerson) (n : string) :
  n ∈ getName <$> people → ∃ i, find_by_name people n = Some i.
Proof.
  intros Hn. destruct (find_by_name people n) as [i|] eqn:E; [by exists i |].
  by apply find_by_name_None in E.
Qed.

(** Where the names are pairwise distinct, a person is found at its own
    index. *)
Lemma find_by_name_NoDup (people : list AbstractPerson) (i : nat) (p : AbstractPerson) :
  NoDup (getName <$> people) → people !! i = Some p →
  find_by_name people (getName p) = Some i.
Proof.
  intros Hnd Hp.
  destruct (find_by_name_elem_of people (getName p)) as [j Hj].
  { apply list_elem_of_fmap. exists p. split; [done | by eapply list_elem_of_lookup_2]. }
  destruct (find_by_name_Some _ _ _ Hj) as (q & Hq & Hname & _).
  rewrite Hj. f_equal.
  eapply (NoDup_lookup _ j i (getName p) Hnd); rewrite list_lookup_fmap.
  - by rewrite Hq; simpl; rewrite Hname.
  - by rewrite Hp.
Qed.

Lemma find_by_name_snoc (people : list AbstractPerson) (p : AbstractPerson) :
  getName p ∉ getName <$> people →
  find_by_name (people ++ [p]) (getName p) = Some (length people).
Proof.
  induction people as [|q ps IH]; simpl; intros Hn.
  - by rewrite String.eqb_refl.
  - apply not_elem_of_cons in Hn as [Hq Hn].
    destruct (String.eqb (getName q) (getName p)) eqn:E.
    + apply eqb_true in E. congruence.
    + by rewrite IH.
Qed.

(** ** addPatient *)

Lemma addPatient_new (n age : string) (w : World) :
  patientExists_loop (_patients (registry w)) n = false →
  addPatient n age w =
  (Returned (Patient_new n age),
   mkWorld (set_patients (_patients (registry w) ++ [Patient_new n age]) (registry w))
           (locals w) (console w ++ ["Patient " +:+ n +:+ " added to the registry."])).
Proof. intros H. unfold addPatient, patientExists. run. by rewrite H. Qed.

Lemma addPatient_existing (n age : string) (w : World) (i : nat) (p : Patient) :
  find_by_name (_patients (registry w)) n = Some i →
  _patients (registry w) !! i = Some p →
  addPatient n age w =
  (Returned p, mkWorld (registry w) (locals w)
                       (console w ++ ["Patient " +:+ n +:+ " already exists."])).
Proof.
  intros Hi Hp. unfold addPatient, patientExists. run.
  assert (patientExists_loop (_patients (registry w)) n = true) as ->.
  { apply patientExists_loop_spec. destruct (find_by_name_Some _ _ _ Hi) as (q & Hq & <- & _).
    apply list_elem_of_fmap. exists q. split; [done | by eapply list_elem_of_lookup_2]. }
  unfold findPatientByName, patient_at. run. simpl. rewrite Hi. simpl. by rewrite Hp.
Qed.

Lemma filter_by_name_absent (people : list AbstractPerson) (n : string) :
  n ∉ getName <$> people → filter (λ q, getName q = n) people = [].
Proof.
  induction people as [|q ps IH]; simpl; intros Hn; [done |].
  apply not_elem_of_cons in Hn as [Hq Hn].
  rewrite filter_cons, decide_False by congruence. by apply IH.
Qed.

(** The claim C7 as it is written fails where the name is registered
    before the first call: the date of birth kept is the earlier one. *)
Lemma addPatient_keeps_earlier_dob :
  ¬ first_write_wins "Alice Smith" "01.01.2001" "02.02.2002" World_new.
Proof.
  intros [(p & Hp & Hdob & _) _]. vm_compute in Hp.
  injection Hp as <-. vm_compute in Hdob. discriminate Hdob.
Qed.

(** For a name that is already registered, neither call changes the
    patient list. *)
Lemma addPatient_registered_twice (n dob1 dob2 : string) (w : World) :
  patientExists_loop (_patients (registry w)) n = true →
  _patients (registry (state_after (addPatient n dob2)
                         (state_after (addPatient n dob1) w))) =
  _patients (registry w).
Proof.
  intros Hn. apply patientExists_loop_spec in Hn.
  destruct (find_by_name_elem_of _ _ Hn) as [i Hi].
  destruct (find_by_name_Some _ _ _ Hi) as (p & Hp & _).
  unfold state_after.
  rewrite (addPatient_existing n dob1 w i p Hi Hp). simpl.
  by rewrite (addPatient_existing n dob2 _ i p).
Qed.

(** C7, amended: for a name that is not registered when the first call is
    made, [addPatient(n, dob1)] then [addPatient(n, dob2)] leaves exactly one
    patient named [n], with date of birth [dob1]; the second call appends
    nothing, changes no date of birth and returns a copy of that patient. *)
Theorem addPatient_first_write_wins (n dob1 dob2 : string) (w : World) :
  patientExists_loop (_patients (registry w)) n = false →
  first_write_wins n dob1 dob2 w.
Proof.
  intros Hn. unfold first_write_wins, state_after, result_of.
  rewrite (addPatient_new n dob1 w Hn). simpl.
  apply patientExists_loop_false in Hn.
  rewrite (addPatient_existing n dob2 _ (length (_patients (registry w)))
             (Patient_new n dob1)); simpl.
  - split; [| done]. exists (Patient_new n dob1). split_and!; [| done..].
    rewrite filter_app, filter_by_name_absent by done.
    by rewrite filter_cons, decide_True.
  - by apply (find_by_name_snoc _ (Patient_new n dob1)).
  - by rewrite lookup_app_r, Nat.sub_diag.
Qed.

Lemma addPatient_first_write_wins_witness :
  first_write_wins "Zoe Quinn" "05.05.1995" "06.06.1996" World_new.
Proof.
  apply (addPatient_first_write_wins "Zoe Quinn" "05.05.1995" "06.06.1996" World_new).
  reflexivity.
Defined.

(** ** [std::remove_if] where the lambda does not change under the moves *)

Section remove_if_stable.
Context {A : Type}.
Variable field : Field → A → string.
Variable moved_from : A.
Variables dateTime patientName doctorName : Arg.
(** The vectors on which the lambda is the predicate [pred], kept by the
    assignments to the elements from [lo] on. *)
Variable pred : A → bool.
Variable stable : list A → Prop.
Variable lo : nat.
Hypothesis lambda_pred :
  ∀ v x, stable v → lambda field dateTime patientName doctorName v x = Some (pred x).
Hypothesis kept_by_insert : ∀ v k y, stable v → lo ≤ k → stable (<[k := y]> v).

Lemma move_to_result (kept junk rest : list A) (j x x0 : A) :
  <[length kept + S (length junk) := moved_from]>
    (<[length kept := x]> (kept ++ (j :: junk) ++ x0 :: rest))
  = (kept ++ [x]) ++ (junk ++ [moved_from]) ++ rest.
Proof.
  rewrite (insert_app_r_alt kept _ (length kept)) by lia.
  rewrite Nat.sub_diag. simpl.
  rewrite (insert_app_r_alt kept) by lia.
  replace (length kept + S (length junk) - length kept) with (S (length junk)) by lia.
  simpl. rewrite (insert_app_r_alt junk) by lia. rewrite Nat.sub_diag. simpl.
  by rewrite <- !app_assoc.
Qed.

Lemma remove_if_loop_stable (rest kept junk : list A) :
  stable (kept ++ junk ++ rest) → lo ≤ length kept → junk ≠ [] →
  ∃ v', remove_if_loop field moved_from dateTime patientName doctorName
          (length rest) (kept ++ junk ++ rest) (length kept) (length kept + length junk)
        = Some (v', length kept + length (purge pred rest)) ∧
        take (length kept + length (purge pred rest)) v' = kept ++ purge pred rest.
Proof.
  revert kept junk. induction rest as [|x rest IH]; intros kept junk Hstable Hlo Hjunk.
  - simpl. rewrite Nat.add_0_r. eexists. split; [done |].
    by rewrite take_app_length, app_nil_r.
  - cbn [remove_if_loop length].
    assert ((kept ++ junk ++ x :: rest) !! (length kept + length junk) = Some x) as ->.
    { rewrite app_assoc. rewrite <- length_app. by rewrite list_lookup_middle. }
    cbn [mbind option_bind]. rewrite (lambda_pred _ _ Hstable). cbn [mbind option_bind].
    destruct (pred x) eqn:Hx.
    + cbn [purge]. rewrite Hx.
      destruct (IH kept (junk ++ [x])) as (v' & Hrun & Htake).
      * by rewrite <- !app_assoc.
      * done.
      * by destruct junk.
      * exists v'.
        assert (length kept + length (junk ++ [x]) = S (length kept + length junk)) as E
          by (rewrite length_app; simpl; lia).
        rewrite E in Hrun. by rewrite <- !app_assoc in Hrun.
    + cbn [purge]. rewrite Hx. destruct junk as [|j junk]; [done |].
      cbn [length]. rewrite move_to_result.
      destruct (IH (kept ++ [x]) (junk ++ [moved_from])) as (v' & Hrun & Htake).
      * rewrite <- move_to_result with (j := j) (x0 := x).
        apply kept_by_insert; [apply kept_by_insert |]; [done | lia..].
      * rewrite length_app. simpl. lia.
      * by destruct junk.
      * exists v'.
        assert (length (kept ++ [x]) + length (junk ++ [moved_from])
                = S (length kept + S (length junk))) as E2
          by (rewrite !length_app; simpl; lia).
        assert (length (kept ++ [x]) + length (purge pred rest)
                = length kept + S (length (purge pred rest))) as E3
          by (rewrite length_app; simpl; lia).
        assert (length (kept ++ [x]) = S (length kept)) as E1
          by (rewrite length_app; simpl; lia).
        rewrite E2, E3, E1 in Hrun. rewrite E3 in Htake.
        by rewrite <- app_assoc in Htake.
Qed.

Lemma find_if_stable (v rest : list A) (first : nat) :
  stable v →
  (∃ pre x post, rest = pre ++ x :: post ∧ Forall (λ y, pred y = false) pre ∧
     pred x = true ∧
     find_if field dateTime patientName doctorName v rest first
     = Some (first + length pre)) ∨
  (Forall (λ y, pred y = false) rest ∧
   find_if field dateTime patientName doctorName v rest first
   = Some (first + length rest)).
Proof.
  intros Hstable. revert first. induction rest as [|y rest IH]; intros first.
  - right. split; [done |]. simpl. by rewrite Nat.add_0_r.
  - cbn [find_if]. rewrite (lambda_pred _ _ Hstable). cbn [mbind option_bind].
    destruct (pred y) eqn:Hy.
    + left. exists [], y, rest. split_and!; [done.. |]. simpl. by rewrite Nat.add_0_r.
    + destruct (IH (S first)) as [(pre & x & post & -> & Hpre & Hx & Hrun)|[Hall Hrun]].
      * left. exists (y :: pre), x, post. split_and!; [done | by constructor | done |].
        rewrite Hrun. simpl. f_equal. lia.
      * right. split; [by constructor |]. rewrite Hrun. simpl. f_equal. lia.
Qed.

Lemma purge_all_rejected (v : list A) :
  Forall (λ y, pred y = false) v → purge pred v = v.
Proof.
  induction 1 as [|y v Hy _ IH]; simpl; [done |]. by rewrite Hy, IH.
Qed.

Lemma erase_remove_if_stable (v : list A) :
  stable v → lo = 0 →
  erase_remove_if field moved_from dateTime patientName doctorName v
  = Some (purge pred v).
Proof.
  intros Hstable Hlo. unfold erase_remove_if, remove_if.
  destruct (find_if_stable v v 0 Hstable) as [(pre & x & post & -> & Hpre & Hx & ->)|[Hall ->]];
    cbn [mbind option_bind Nat.add].
  - rewrite decide_False by (rewrite length_app; simpl; lia).
    assert (length (pre ++ x :: post) - S (length pre) = length post) as ->
      by (rewrite length_app; simpl; lia).
    destruct (remove_if_loop_stable post pre [x]) as (v' & Hrun & Htake);
      [done | lia | done |].
    simpl in Hrun. rewrite Nat.add_1_r in Hrun. rewrite Hrun. simpl. f_equal.
    rewrite Htake.
    assert (purge pred (pre ++ x :: post) = purge pred pre ++ purge pred (x :: post)) as ->.
    { clear. induction pre as [|y pre IH]; simpl; [done |]. rewrite IH.
      by destruct (pred y). }
    simpl. by rewrite Hx, (purge_all_rejected pre).
  - rewrite decide_True by done. simpl. by rewrite firstn_all, purge_all_rejected.
Qed.

End remove_if_stable.

(** Handed strings that are no part of the vector, the erase-remove leaves
    the elements that are not the triple. *)
Lemma erase_remove_if_outside {A : Type} (field : Field → A → string) (moved_from : A)
    (dateTime patientName doctorName : string) (v : list A) :
  erase_remove_if field moved_from (Outside dateTime) (Outside patientName)
    (Outside doctorName) v
  = Some (purge (λ x, String.eqb (field DateTime x) dateTime &&
                      String.eqb (field PatientName x) patientName &&
                      String.eqb (field DoctorName x) doctorName) v).
Proof.
  apply (erase_remove_if_stable _ _ _ _ _ _ (λ _, True) 0); [| done.. ].
  intros v' x _. unfold lambda. simpl.
  by destruct (String.eqb (field DateTime x) dateTime),
              (String.eqb (field PatientName x) patientName).
Qed.

Lemma deleteAppointment_outside (dateTime patientName doctorName : string)
    (p : AbstractPerson) :
  deleteAppointment (Outside dateTime) (Outside patientName) (Outside doctorName) p
  = Some (delete_matching dateTime patientName doctorName p).
Proof.
  unfold deleteAppointment. by rewrite erase_remove_if_outside.
Qed.

Lemma erase_appointments_own (dateTime patientName doctorName : string) (w : World) :
  erase_appointments (Own dateTime) (Own patientName) (Own doctorName) w
  = (Returned (),
     mkWorld (set_appointments (purge (cancels dateTime patientName doctorName)
                                      (_appointments (registry w))) (registry w))
             (locals w) (console w)).
Proof.
  unfold erase_appointments. simpl. by rewrite erase_remove_if_outside.
Qed.

Lemma delete_from_doctor_own (i : nat) (d : Doctor)
    (dateTime patientName doctorName : string) (w : World) :
  _doctors (registry w) !! i = Some d →
  delete_from_doctor i (Own dateTime) (Own patientName) (Own doctorName) w
  = (Returned (),
     mkWorld (set_doctors (alter (delete_matching dateTime patientName doctorName) i
                                 (_doctors (registry w))) (registry w))
             (locals w) (console w)).
Proof.
  intros Hd. unfold delete_from_doctor, Doctor in *. simpl. rewrite Hd. simpl.
  rewrite deleteAppointment_outside. do 3 f_equal.
  rewrite list_insert_alter. apply list_alter_ext; [| done..].
  intros x Hx. by pose proof (eq_trans (eq_sym Hx) Hd) as [= ->].
Qed.

Lemma delete_from_patient_own (j : nat) (p : Patient)
    (dateTime patientName doctorName : string) (w : World) :
  _patients (registry w) !! j = Some p →
  delete_from_patient j (Own dateTime) (Own patientName) (Own doctorName) w
  = (Returned (),
     mkWorld (set_patients (alter (delete_matching dateTime patientName doctorName) j
                                  (_patients (registry w))) (registry w))
             (locals w) (console w)).
Proof.
  intros Hp. unfold delete_from_patient, Patient in *. simpl. rewrite Hp. simpl.
  rewrite deleteAppointment_outside. do 3 f_equal.
  rewrite list_insert_alter. apply list_alter_ext; [| done..].
  intros x Hx. by pose proof (eq_trans (eq_sym Hx) Hp) as [= ->].
Qed.

(** ** cancelAppointment *)

Lemma matches_false (dateTime patientName doctorName : string) (x : AppointmentRef) :
  matches dateTime patientName doctorName x = false ↔ x ≠ (dateTime, (patientName, doctorName)).
Proof.
  destruct x as [dt [pn dn]]. unfold matches. simpl.
  rewrite !andb_false_iff, !eqb_false. split.
  - intros H [= -> -> ->]. tauto.
  - intros H. destruct (decide (dt = dateTime)) as [->|]; [| tauto].
    destruct (decide (pn = patientName)) as [->|]; [| tauto].
    destruct (decide (dn = doctorName)) as [->|]; [| tauto]. done.
Qed.

Lemma cancels_false (dateTime patientName doctorName : string) (a : Appointment) :
  cancels dateTime patientName doctorName a = false ↔
  triple a ≠ (dateTime, (patientName, doctorName)).
Proof. apply (matches_false dateTime patientName doctorName (triple a)). Qed.

Lemma delete_matching_without (dateTime patientName doctorName : string) (p : AbstractPerson) :
  delete_matching dateTime patientName doctorName p =
  without (dateTime, (patientName, doctorName)) p.
Proof.
  unfold delete_matching, without. f_equal. rewrite purge_filter.
  apply list_filter_iff. intros x. apply matches_false.
Qed.

Lemma alter_id_at {A : Type} (f : A → A) (i : nat) (l : list A) :
  (∀ x, l !! i = Some x → f x = x) → alter f i l = l.
Proof.
  intros Hf. apply list_eq. intros k. destruct (decide (i = k)) as [<-|Hne].
  - rewrite list_lookup_alter_eq. destruct (l !! i) eqn:E; simpl; [| done]. by rewrite Hf.
  - by rewrite list_lookup_alter_ne.
Qed.

Lemma cancelAppointment_registered (dateTime patientName doctorName : string)
    (w : World) (i j : nat) :
  find_by_name (_doctors (registry w)) doctorName = Some i →
  find_by_name (_patients (registry w)) patientName = Some j →
  cancelAppointment (Own dateTime) (Own patientName) (Own doctorName) w =
  (Returned (),
   mkWorld (mkRegistry (_visitCards (registry w))
              (alter (delete_matching dateTime patientName doctorName) i
                     (_doctors (registry w)))
              (alter (delete_matching dateTime patientName doctorName) j
                     (_patients (registry w)))
              (purge (cancels dateTime patientName doctorName)
                         (_appointments (registry w))))
           (locals w)
           (console w ++ ["Appointment on " +:+ dateTime +:+ " canceled for patient "
                          +:+ patientName])).
Proof.
  intros Hi Hj.
  destruct (find_by_name_Some _ _ _ Hi) as (d & Hd & _).
  destruct (find_by_name_Some _ _ _ Hj) as (p & Hp & _).
  unfold cancelAppointment. run. rewrite erase_appointments_own.
  unfold find_through, findDoctorByName, findPatientByName, read. run. simpl.
  rewrite Hi. simpl. rewrite (delete_from_doctor_own i d) by done. simpl.
  rewrite Hj. simpl. by rewrite (delete_from_patient_own j p) by done.
Qed.

Lemma cancelAppointment_no_doctor (dateTime patientName doctorName : string) (w : World) :
  find_by_name (_doctors (registry w)) doctorName = None →
  cancelAppointment (Own dateTime) (Own patientName) (Own doctorName) w =
  (Thrown "Doctor not found.",
   mkWorld (set_appointments (purge (cancels dateTime patientName doctorName)
                                        (_appointments (registry w))) (registry w))
           (locals w) (console w)).
Proof.
  intros Hi. unfold cancelAppointment. run. rewrite erase_appointments_own.
  unfold find_through, findDoctorByName. run. simpl. by rewrite Hi.
Qed.

Lemma cancelAppointment_no_patient (dateTime patientName doctorName : string)
    (w : World) (i : nat) :
  find_by_name (_doctors (registry w)) doctorName = Some i →
  find_by_name (_patients (registry w)) patientName = None →
  cancelAppointment (Own dateTime) (Own patientName) (Own doctorName) w =
  (Thrown "Patient not found.",
   mkWorld (mkRegistry (_visitCards (registry w))
              (alter (delete_matching dateTime patientName doctorName) i
                     (_doctors (registry w)))
              (_patients (registry w))
              (purge (cancels dateTime patientName doctorName)
                         (_appointments (registry w))))
           (locals w) (console w)).
Proof.
  intros Hi Hj.
  destruct (find_by_name_Some _ _ _ Hi) as (d & Hd & _).
  unfold cancelAppointment. run. rewrite erase_appointments_own.
  unfold find_through, findDoctorByName, findPatientByName. run. simpl.
  rewrite Hi. simpl. rewrite (delete_from_doctor_own i d) by done. simpl.
  by rewrite Hj.
Qed.

Lemma own_string_inv (ref : StringRef) : own_string ref → ∃ s, ref = Own s.
Proof. destruct ref as [s|pl k f]; [by exists s | done]. Qed.

(** *** Whatever strings it is handed *)

Lemma same_people_bind {A B : Type} (m : M A) (f : A → M B) (w : World) :
  same_people w (state_after m w) →
  (∀ a w1, same_people w1 (state_after (f a) w1)) →
  same_people w (state_after (m ≫= f) w).
Proof.
  unfold state_after, mbind, M_bind. intros Hm Hf.
  destruct (m w) as [[a| |] w1]; simpl in *; [| done..].
  destruct Hm as (Hd & Hp & Hc & Hl), (Hf a w1) as (Hd' & Hp' & Hc' & Hl').
  split_and!; etrans; eassumption.
Qed.

Lemma deleteAppointment_keeps_name (dateTime patientName doctorName : Arg)
    (p p' : AbstractPerson) :
  deleteAppointment dateTime patientName doctorName p = Some p' → getName p' = getName p.
Proof.
  unfold deleteAppointment. intros H.
  destruct (erase_remove_if _ _ _ _ _ _) as [l|]; simpl in H; [| done].
  by injection H as <-.
Qed.

Lemma names_insert (people : list AbstractPerson) (i : nat) (p p' : AbstractPerson) :
  people !! i = Some p → getName p' = getName p →
  getName <$> <[i := p']> people = getName <$> people.
Proof.
  intros Hp Hn. rewrite list_fmap_insert, Hn. apply list_insert_id.
  by rewrite list_lookup_fmap, Hp.
Qed.

Lemma find_through_state (people : Registry → list AbstractPerson)
    (find : string → M nat) (n : StringRef) (w : World) :
  (∀ s, state_after (find s) w = w) → state_after (find_through people find n) w = w.
Proof.
  intros Hfind. unfold state_after, find_through in *.
  destruct (content (registry w) n); [done |]. by destruct (people (registry w)).
Qed.

Lemma cancelAppointment_same_people (dateTime patientName doctorName : StringRef)
    (w : World) :
  same_people w (state_after (cancelAppointment dateTime patientName doctorName) w).
Proof.
  unfold cancelAppointment. revert w.
  assert (∀ w, same_people w w) as Hrefl by done.
  assert (∀ w, same_people w (state_after
            (erase_appointments dateTime patientName doctorName) w)) as Herase.
  { intros w. unfold state_after, erase_appointments.
    by destruct (erase_remove_if _ _ _ _ _ _). }
  assert (∀ i w, same_people w (state_after
            (delete_from_doctor i dateTime patientName doctorName) w)) as Hdoctor.
  { intros i w. unfold state_after, delete_from_doctor, Doctor in *.
    destruct (_ ≫= _) as [d'|] eqn:Hd'; simpl; [| apply Hrefl].
    apply bind_Some in Hd' as (d & Hd & Hd').
    split_and!; [| done..]. simpl.
    apply (names_insert _ i d); [done |]. by eapply deleteAppointment_keeps_name. }
  assert (∀ j w, same_people w (state_after
            (delete_from_patient j dateTime patientName doctorName) w)) as Hpatient.
  { intros j w. unfold state_after, delete_from_patient, Patient in *.
    destruct (_ ≫= _) as [p'|] eqn:Hp'; simpl; [| apply Hrefl].
    apply bind_Some in Hp' as (p & Hp & Hp').
    split_and!; [done | | done..]. simpl.
    apply (names_insert _ j p); [done |]. by eapply deleteAppointment_keeps_name. }
  assert (∀ ref w, same_people w (state_after (read ref) w)) as Hread.
  { intros ref w. unfold state_after, read. by destruct (content _ _). }
  intros w.
  apply same_people_bind; [done |]. intros _ w1.
  apply same_people_bind.
  { rewrite find_through_state; [done |]. intros s. unfold state_after, findDoctorByName.
    run. by destruct (find_by_name _ _). }
  intros i w2. apply same_people_bind; [done |]. intros _ w3.
  apply same_people_bind.
  { rewrite find_through_state; [done |]. intros s. unfold state_after, findPatientByName.
    run. by destruct (find_by_name _ _). }
  intros j w4. apply same_people_bind; [done |]. intros _ w5.
  apply same_people_bind; [done |]. intros dt w6.
  apply same_people_bind; [done |]. intros pn w7. done.
Qed.

(** The claim C5 as it is written fails in two ways.  Where a name is not
    registered nothing matches, yet the call throws.  And where the three
    strings handed over are those of the first appointment of the global
    list, the erase-remove moves the next appointment under the references:
    the call then removes Alice Smith's appointment from the global list only,
    and Bob Johnson's from the lists of Emily Johnson and of Bob Johnson. *)
Lemma cancelAppointment_not_as_specified :
  ¬ silent_noop (Own "2025-01-10 09:00") (Own "Alice Smith") (Own "Gregory House")
      World_new ∧
  ¬ cancels_as_specified (of_first_appointment DateTime) (of_first_appointment PatientName)
      (of_first_appointment DoctorName) two_bookings.
Proof.
  split.
  - unfold silent_noop, unmatched. intros H.
    destruct (H "2025-01-10 09:00" "Alice Smith" "Gregory House") as [H' _];
      [done.. | | discriminate H'].
    split_and!.
    + by intros a ?%elem_of_nil.
    + intros d Hd. vm_compute in Hd.
      repeat (apply elem_of_cons in Hd as [->|Hd]; [apply not_elem_of_nil |]).
      by apply elem_of_nil in Hd.
    + intros p Hp. vm_compute in Hp.
      repeat (apply elem_of_cons in Hp as [->|Hp]; [apply not_elem_of_nil |]).
      by apply elem_of_nil in Hp.
  - intros H.
    destruct (H "2025-01-10 09:00" "Alice Smith" "John Smith" 0 0) as (_ & Hdoctors & _);
      [reflexivity.. |].
    vm_compute in Hdoctors. discriminate Hdoctors.
Qed.

(** C5, amended: where the three strings handed over are strings of the
    caller's own, [doctorName] the name of a registered doctor and
    [patientName] that of a registered patient, [cancelAppointment] returns
    normally and removes every entry whose three fields match the triple,
    and no other, from the global list, from the list of that doctor and
    from the list of that patient; where nothing matches, the registry is
    left as it was. *)
Theorem cancelAppointment_removes_matches (dateTime patientName doctorName : string)
    (w : World) (i j : nat) :
  find_by_name (_doctors (registry w)) doctorName = Some i →
  find_by_name (_patients (registry w)) patientName = Some j →
  let cancel := cancelAppointment (Own dateTime) (Own patientName) (Own doctorName) in
  result_of cancel w = Returned () ∧
  removes_matches (dateTime, (patientName, doctorName)) i j w (state_after cancel w) ∧
  cancels_as_specified (Own dateTime) (Own patientName) (Own doctorName) w ∧
  silent_noop (Own dateTime) (Own patientName) (Own doctorName) w.
Proof.
  intros Hi Hj cancel. subst cancel.
  assert (removes_matches (dateTime, (patientName, doctorName)) i j w
            (state_after (cancelAppointment (Own dateTime) (Own patientName)
                            (Own doctorName)) w)) as Hremoved.
  { unfold removes_matches, state_after.
    rewrite (cancelAppointment_registered _ _ _ w i j Hi Hj). simpl.
    split_and!; [| | | done].
    - rewrite purge_filter. apply list_filter_iff. intros a. apply cancels_false.
    - apply list_alter_ext; [| done..]. intros d _. apply delete_matching_without.
    - apply list_alter_ext; [| done..]. intros p _. apply delete_matching_without. }
  split_and!; [| done | |].
  - unfold result_of. by rewrite (cancelAppointment_registered _ _ _ w i j Hi Hj).
  - intros dt pn dn i' j' [= <-] [= <-] [= <-] Hi' Hj'.
    rewrite Hi in Hi'. rewrite Hj in Hj'. injection Hi' as <-. injection Hj' as <-. done.
  - intros dt pn dn [= <-] [= <-] [= <-] (Hglobal & Hdoctors & Hpatients).
    unfold result_of, state_after.
    rewrite (cancelAppointment_registered _ _ _ w i j Hi Hj). simpl. split; [done |].
    destruct (registry w) as [cards doctors patients apps]. simpl in *. f_equal.
    + apply alter_id_at. intros [n dob l] Hd. unfold delete_matching. simpl. f_equal.
      apply purge_id. intros x Hx. apply matches_false. intros ->.
      by apply (Hdoctors _ (list_elem_of_lookup_2 _ _ _ Hd)).
    + apply alter_id_at. intros [n dob l] Hp. unfold delete_matching. simpl. f_equal.
      apply purge_id. intros x Hx. apply matches_false. intros ->.
      by apply (Hpatients _ (list_elem_of_lookup_2 _ _ _ Hp)).
    + apply purge_id. intros a Ha. apply cancels_false. by apply Hglobal.
Qed.

Lemma cancelAppointment_removes_matches_witness :
  let e := ("2025-01-10 09:00", ("Alice Smith", "John Smith")) in
  let cancel := cancelAppointment (Own "2025-01-10 09:00") (Own "Alice Smith")
                  (Own "John Smith") in
  in_global_list (registry two_bookings) e ∧
  removes_matches e 0 0 two_bookings (state_after cancel two_bookings).
Proof.
  split.
  - eexists. split; [apply list_elem_of_here | reflexivity].
  - refine (proj1 (proj2 (cancelAppointment_removes_matches "2025-01-10 09:00"
                            "Alice Smith" "John Smith" two_bookings 0 0 _ _)));
      reflexivity.
Defined.

(** ** scheduleAppointment *)

Lemma read_doctor_of (ref : DoctorRef) (w : World) (d : Doctor) :
  doctor_of w ref = Some d → read_doctor ref w = (Returned d, w).
Proof. destruct ref; simpl; by intros ->. Qed.

Lemma read_doctor_dangling (ref : DoctorRef) (w : World) :
  doctor_of w ref = None → read_doctor ref w = (Undefined, w).
Proof. destruct ref; simpl; by intros ->. Qed.

Lemma doctor_of_written (ref : DoctorRef) (f : Doctor → Doctor) (w : World) :
  doctor_of (written ref f w) ref = f <$> doctor_of w ref.
Proof. destruct ref; simpl; apply list_lookup_alter_eq. Qed.

Lemma doctor_of_written_ne (ref ref' : DoctorRef) (f : Doctor → Doctor) (w : World) :
  ref' ≠ ref → doctor_of (written ref f w) ref' = doctor_of w ref'.
Proof.
  destruct ref, ref'; simpl; intros Hne; try done;
    apply list_lookup_alter_ne; congruence.
Qed.

Lemma scheduleAppointment_refused (dateTime : string) (ref : DoctorRef) (patient : Patient)
    (w : World) (d : Doctor) :
  doctor_of w ref = Some d → isAvailable d dateTime = false →
  scheduleAppointment dateTime ref patient w =
  (Returned (),
   mkWorld (registry w) (locals w)
     (console w ++ ["Sorry, Dr. " +:+ getName d +:+ " is not available at " +:+ dateTime
                    +:+ ". Please choose another time."])).
Proof.
  intros Hd Hbusy. unfold scheduleAppointment. run.
  rewrite (read_doctor_of ref w d Hd). by rewrite Hbusy.
Qed.

(** The lookup of the patient comes after the append to the doctor's list:
    where it throws, that append has happened and the other two have not. *)
Lemma scheduleAppointment_patient_missing (dateTime : string) (ref : DoctorRef)
    (patient : Patient) (w : World) (d : Doctor) :
  doctor_of w ref = Some d → isAvailable d dateTime = true →
  find_by_name (_patients (registry w)) (getName patient) = None →
  scheduleAppointment dateTime ref patient w =
  (Thrown "Patient not found.",
   written ref (addAppointment dateTime (getName patient) (getName d)) w).
Proof.
  intros Hd Hfree Hj. unfold scheduleAppointment, findPatientByName. run.
  rewrite (read_doctor_of ref w d Hd), Hfree.
  destruct ref; simpl in *; by rewrite Hj.
Qed.

Lemma scheduleAppointment_booked (dateTime : string) (ref : DoctorRef) (patient : Patient)
    (w : World) (d : Doctor) (j : nat) (p : Patient) :
  doctor_of w ref = Some d → isAvailable d dateTime = true →
  find_by_name (_patients (registry w)) (getName patient) = Some j →
  _patients (registry w) !! j = Some p →
  let e := (dateTime, (getName patient, getName d)) in
  let w1 := written ref (appended e) w in
  scheduleAppointment dateTime ref patient w =
  (Returned (),
   mkWorld (mkRegistry (_visitCards (registry w)) (_doctors (registry w1))
              (alter (appended e) j (_patients (registry w)))
              (_appointments (registry w) ++
                 [mkAppointment dateTime (appended e d) (appended e p)]))
           (locals w1)
           (console w ++ ["Appointment scheduled for " +:+ dateTime +:+ " with Dr. "
                          +:+ getName d +:+ " for patient " +:+ getName p])).
Proof.
  intros Hd Hfree Hj Hp e w1.
  unfold scheduleAppointment, findPatientByName, update_patient, patient_at,
    push_appointment. run.
  rewrite (read_doctor_of ref w d Hd), Hfree.
  destruct ref as [i|k]; simpl in *; rewrite Hj; simpl.
  - rewrite list_lookup_alter_eq, Hd. simpl. rewrite list_lookup_alter_eq, Hp. done.
  - rewrite list_lookup_alter_eq, Hd. simpl. rewrite list_lookup_alter_eq, Hp. done.
Qed.




(** ** Booking, then cancelling *)

Lemma elem_of_free_slots (date : string) (doctors : list Doctor) (x : string * string) :
  x ∈ free_slots date doctors ↔
  ∃ doctor slot, doctor ∈ doctors ∧ slot ∈ working_slots ∧
                 ¬ booked_at doctor (slot_of date slot) ∧
                 x = (slot_of date slot, name doctor).
Proof.
  unfold free_slots. rewrite list_elem_of_bind. split.
  - intros (doctor & (slot & Hx & Hslot)%list_elem_of_bind & Hdoctor).
    destruct (decide (booked_at doctor (slot_of date slot))) as [|Hfree].
    + by apply elem_of_nil in Hx.
    + apply list_elem_of_singleton in Hx. by exists doctor, slot.
  - intros (doctor & slot & Hdoctor & Hslot & Hfree & ->).
    exists doctor. split; [| done]. apply list_elem_of_bind. exists slot. split; [| done].
    rewrite decide_False by done. by apply list_elem_of_singleton.
Qed.

Lemma elem_of_available_times_for (date n t : string) (w : World) :
  t ∈ available_times_for date n w ↔
  ∃ doctor slot, doctor ∈ _doctors (registry w) ∧ slot ∈ working_slots ∧
                 ¬ booked_at doctor (slot_of date slot) ∧
                 t = slot_of date slot ∧ name doctor = n.
Proof.
  unfold available_times_for, result_of. rewrite getAvailableTimesForDoctor_filter. simpl.
  rewrite list_elem_of_fmap. split.
  - intros ([t' n'] & -> & [Hn Hx]%list_elem_of_filter). simpl in *.
    apply elem_of_free_slots in Hx as (doctor & slot & ? & ? & ? & [= -> ->]).
    by exists doctor, slot.
  - intros (doctor & slot & Hdoctor & Hslot & Hfree & -> & <-).
    exists (slot_of date slot, name doctor). split; [done |].
    apply list_elem_of_filter. split; [done |]. apply elem_of_free_slots.
    by exists doctor, slot.
Qed.

Lemma names_alter (f : AbstractPerson → AbstractPerson) (i : nat)
    (people : list AbstractPerson) :
  (∀ x, getName (f x) = getName x) →
  getName <$> alter f i people = getName <$> people.
Proof.
  intros Hf. rewrite (list_fmap_alter getName f id).
  - by apply list_alter_id.
  - apply Forall_forall. intros x _. apply Hf.
Qed.

Lemma find_by_name_names (people people' : list AbstractPerson) (n : string) :
  getName <$> people = getName <$> people' →
  find_by_name people n = find_by_name people' n.
Proof.
  revert people'. induction people as [|p ps IH]; intros [|p' ps']; simpl; try done.
  intros [= Hp Hps]. rewrite Hp. by rewrite (IH ps').
Qed.

Lemma slot_symmetry_distinct_names (w : World) (date : string) (slot : nat * nat)
    (i : nat) (d : Doctor) (patient : Patient) :
  NoDup (getName <$> _doctors (registry w)) →
  slot ∈ working_slots →
  _doctors (registry w) !! i = Some d →
  patientExists_loop (_patients (registry w)) (getName patient) = true →
  isAvailable d (slot_of date slot) = true →
  let t := slot_of date slot in
  let w1 := state_after (scheduleAppointment t (InRegistry i) patient) w in
  let w2 := state_after (cancelAppointment (Own t) (Own (getName patient)) (Own (getName d))) w1 in
  (t ∉ available_times_for date (getName d) w1) ∧
  (t ∈ available_times_for date (getName d) w2).
Proof.
  intros Hnd Hslot Hd Hreg Hfree t w1 w2.
  apply patientExists_loop_spec in Hreg.
  destruct (find_by_name_elem_of _ _ Hreg) as [j Hj].
  destruct (find_by_name_Some _ _ _ Hj) as (p & Hp & Hname & _).
  set (e := (t, (getName patient, getName d))).
  assert (_doctors (registry w1) = alter (appended e) i (_doctors (registry w)) ∧
          _patients (registry w1) = alter (appended e) j (_patients (registry w)))
    as [Hdoctors1 Hpatients1].
  { subst w1. unfold state_after.
    by rewrite (scheduleAppointment_booked t (InRegistry i) patient w d j p). }
  assert (_doctors (registry w2) =
          alter (delete_matching t (getName patient) (getName d)) i
                (_doctors (registry w1))) as Hdoctors2.
  { subst w2. unfold state_after.
    rewrite (cancelAppointment_registered _ _ _ w1 i j); [done | |].
    - rewrite Hdoctors1.
      rewrite (find_by_name_names _ (_doctors (registry w))) by (by apply names_alter).
      by apply find_by_name_NoDup.
    - rewrite Hpatients1.
      by rewrite (find_by_name_names _ (_patients (registry w))) by (by apply names_alter). }
  split.
  - intros (doctor & slot' & Hdoctor & _ & Hfree' & Ht & Hn)%elem_of_available_times_for.
    rewrite <- Ht in Hfree'. apply Hfree'.
    rewrite Hdoctors1 in Hdoctor.
    apply list_elem_of_lookup in Hdoctor as [k Hk].
    destruct (decide (i = k)) as [<-|Hne].
    + rewrite list_lookup_alter_eq, Hd in Hk. injection Hk as <-.
      unfold booked_at. simpl. rewrite fmap_app. apply elem_of_app. right.
      by apply list_elem_of_singleton.
    + rewrite list_lookup_alter_ne in Hk by done. exfalso. apply Hne.
      unfold Doctor in *.
      eapply (NoDup_lookup _ i k (getName d) Hnd); rewrite list_lookup_fmap.
      * by rewrite Hd.
      * rewrite Hk. simpl. by rewrite <- Hn.
  - apply elem_of_available_times_for.
    exists (delete_matching t (getName patient) (getName d) (appended e d)), slot.
    split_and!; [| done | | done..].
    + rewrite Hdoctors2, Hdoctors1. apply list_elem_of_lookup. exists i.
      by rewrite !list_lookup_alter_eq, Hd.
    + unfold booked_at. simpl.
      intros (x & Hx & [Hin Hno]%elem_of_purge)%list_elem_of_fmap.
      apply matches_false in Hno.
      apply elem_of_app in Hin as [Hin|Hin%list_elem_of_singleton]; [| done].
      apply isAvailable_spec in Hfree. apply Hfree.
      unfold booked_at. apply list_elem_of_fmap. by exists x.
Qed.

(** ** Who holds which entry *)

Lemma holds_lookup (people : list AbstractPerson) (n : string) (e : AppointmentRef) :
  holds people n e ↔ ∃ k d, people !! k = Some d ∧ getName d = n ∧ e ∈ appointments d.
Proof.
  unfold holds. split.
  - intros (d & [k Hk]%list_elem_of_lookup & ? & ?). by exists k, d.
  - intros (k & d & Hk & ? & ?). exists d. split; [| done].
    by eapply list_elem_of_lookup_2.
Qed.

Lemma holds_name (people : list AbstractPerson) (n : string) (e : AppointmentRef) :
  holds people n e → n ∈ getName <$> people.
Proof.
  intros (d & Hd & <- & _). apply list_elem_of_fmap. by exists d.
Qed.

Lemma lookup_same_name (people : list AbstractPerson) (i k : nat) (d d' : AbstractPerson) :
  NoDup (getName <$> people) → people !! i = Some d → people !! k = Some d' →
  getName d' = getName d → k = i.
Proof.
  intros Hnd Hd Hd' Hname.
  eapply (NoDup_lookup _ k i (getName d) Hnd); rewrite list_lookup_fmap.
  - rewrite Hd'. simpl. by rewrite Hname.
  - by rewrite Hd.
Qed.

Lemma holds_alter_appended (people : list AbstractPerson) (i : nat) (d0 : AbstractPerson)
    (e0 : AppointmentRef) (n : string) (e : AppointmentRef) :
  people !! i = Some d0 →
  holds (alter (appended e0) i people) n e ↔
  holds people n e ∨ (n = getName d0 ∧ e = e0).
Proof.
  intros Hd0. rewrite !holds_lookup. split.
  - intros (k & d & Hk & Hn & He). destruct (decide (i = k)) as [<-|Hne].
    + rewrite list_lookup_alter_eq, Hd0 in Hk. injection Hk as <-. simpl in *.
      apply elem_of_app in He as [He|He%list_elem_of_singleton].
      * left. by exists i, d0.
      * right. done.
    + rewrite list_lookup_alter_ne in Hk by done. left. by exists k, d.
  - intros [(k & d & Hk & Hn & He)|[-> ->]].
    + destruct (decide (i = k)) as [<-|Hne].
      * exists i, (appended e0 d). rewrite list_lookup_alter_eq, Hk.
        split_and!; [done..|]. simpl. apply elem_of_app. by left.
      * exists k, d. by rewrite list_lookup_alter_ne.
    + exists i, (appended e0 d0). rewrite list_lookup_alter_eq, Hd0.
      split_and!; [done..|]. simpl. apply elem_of_app. right.
      by apply list_elem_of_singleton.
Qed.

Lemma holds_alter_delete (people : list AbstractPerson) (i : nat) (d0 : AbstractPerson)
    (dateTime patientName doctorName n : string) (e : AppointmentRef) :
  NoDup (getName <$> people) → people !! i = Some d0 →
  holds (alter (delete_matching dateTime patientName doctorName) i people) n e ↔
  holds people n e ∧ ¬ (n = getName d0 ∧ e = (dateTime, (patientName, doctorName))).
Proof.
  intros Hnd Hd0. rewrite !holds_lookup. split.
  - intros (k & d & Hk & Hn & He). destruct (decide (i = k)) as [<-|Hne].
    + rewrite list_lookup_alter_eq, Hd0 in Hk. injection Hk as <-. simpl in *.
      apply elem_of_purge in He as [He Hno%matches_false].
      split; [by exists i, d0 | by intros [_ ?]].
    + rewrite list_lookup_alter_ne in Hk by done.
      split; [by exists k, d |]. intros [-> _]. apply Hne. symmetry.
      by eapply lookup_same_name.
  - intros [(k & d & Hk & Hn & He) Hno]. destruct (decide (i = k)) as [<-|Hne].
    + exists i, (delete_matching dateTime patientName doctorName d).
      rewrite list_lookup_alter_eq, Hk. split_and!; [done..|]. simpl.
      apply elem_of_purge. split; [done |]. apply matches_false.
      intros ->. apply Hno. split; [| done]. congruence.
    + exists k, d. by rewrite list_lookup_alter_ne.
Qed.

Lemma holds_snoc_new (people : list AbstractPerson) (x : AbstractPerson)
    (n : string) (e : AppointmentRef) :
  appointments x = [] → holds (people ++ [x]) n e ↔ holds people n e.
Proof.
  intros Hx. unfold holds. split.
  - intros (d & [Hd|Hd%list_elem_of_singleton]%elem_of_app & Hn & He).
    + by exists d.
    + subst d. rewrite Hx in He. by apply elem_of_nil in He.
  - intros (d & Hd & Hn & He). exists d. split; [| done]. apply elem_of_app. by left.
Qed.

Lemma in_global_list_snoc (r r' : Registry) (a : Appointment) (e : AppointmentRef) :
  _appointments r' = _appointments r ++ [a] →
  in_global_list r' e ↔ in_global_list r e ∨ triple a = e.
Proof.
  intros Happs. unfold in_global_list. rewrite Happs. split.
  - intros (a' & [Ha|Ha%list_elem_of_singleton]%elem_of_app & He).
    + left. by exists a'.
    + right. by subst a'.
  - intros [(a' & Ha & He)|He].
    + exists a'. split; [| done]. apply elem_of_app. by left.
    + exists a. split; [| done]. apply elem_of_app. right. by apply list_elem_of_singleton.
Qed.

Lemma in_global_list_cancel (r r' : Registry) (dateTime patientName doctorName : string)
    (e : AppointmentRef) :
  _appointments r' = purge (cancels dateTime patientName doctorName) (_appointments r) →
  in_global_list r' e ↔
  in_global_list r e ∧ e ≠ (dateTime, (patientName, doctorName)).
Proof.
  intros Happs. unfold in_global_list. rewrite Happs. split.
  - intros (a & [Ha Hno%cancels_false]%elem_of_purge & <-).
    split; [by exists a | done].
  - intros [(a & Ha & <-) Hno]. exists a. split; [| done].
    apply elem_of_purge. split; [done |]. by apply cancels_false.
Qed.


(** ** The invariants *)

Lemma consistent_mirrored (r : Registry) : consistent r → mirrored r.
Proof.
  intros (_ & _ & Hdoctors & Hpatients & Hglobal) e. split; split.
  - intros H. apply Hdoctors in H as [_ H]. by apply Hglobal.
  - intros H. apply Hpatients in H as [_ H]. by apply Hglobal.
  - intros H. by apply Hpatients in H as [_ H].
  - intros H. by apply Hglobal.
Qed.

Lemma consistent_new : consistent Registry_new.
Proof.
  split_and!.
  - apply (bool_decide_unpack _). by vm_compute.
  - apply (bool_decide_unpack _). by vm_compute.
  - intros n e (d & Hd & _ & He). exfalso. vm_compute in Hd.
    repeat (apply elem_of_cons in Hd as [->|Hd]; [by apply elem_of_nil in He |]).
    by apply elem_of_nil in Hd.
  - intros n e (d & Hd & _ & He). exfalso. vm_compute in Hd.
    repeat (apply elem_of_cons in Hd as [->|Hd]; [by apply elem_of_nil in He |]).
    by apply elem_of_nil in Hd.
  - intros e (a & Ha & _). by apply elem_of_nil in Ha.
Qed.

(** The three appends of a booking keep the registry consistent. *)
Lemma consistent_book (r r' : Registry) (dateTime : string) (i j : nat)
    (d : Doctor) (p : Patient) (a : Appointment) :
  let e := (dateTime, (getName p, getName d)) in
  consistent r →
  _doctors r !! i = Some d → _patients r !! j = Some p →
  _doctors r' = alter (appended e) i (_doctors r) →
  _patients r' = alter (appended e) j (_patients r) →
  _appointments r' = _appointments r ++ [a] → triple a = e →
  consistent r'.
Proof.
  intros e (Hnd & Hnp & Hdoctors & Hpatients & Hglobal) Hd Hp Hds Hps Happs Ha.
  unfold consistent, in_doctor_list, in_patient_list. rewrite Hds, Hps.
  split_and!.
  - by rewrite names_alter.
  - by rewrite names_alter.
  - intros n x [H|[-> ->]]%(holds_alter_appended _ _ d); [| | done].
    + destruct (Hdoctors _ _ H) as [? ?]. split; [done |].
      apply (in_global_list_snoc r r' a); auto.
    + split; [done |]. apply (in_global_list_snoc r r' a); auto.
  - intros n x [H|[-> ->]]%(holds_alter_appended _ _ p); [| | done].
    + destruct (Hpatients _ _ H) as [? ?]. split; [done |].
      apply (in_global_list_snoc r r' a); auto.
    + split; [done |]. apply (in_global_list_snoc r r' a); auto.
  - intros x [H|H]%(in_global_list_snoc r r' a); [| | done].
    + destruct (Hglobal _ H). split.
      * apply (holds_alter_appended _ _ d); auto.
      * apply (holds_alter_appended _ _ p); auto.
    + rewrite Ha in H. subst x. split.
      * apply (holds_alter_appended _ _ d); [done |]. by right.
      * apply (holds_alter_appended _ _ p); [done |]. by right.
Qed.

Lemma consistent_fields (r r' : Registry) :
  _doctors r' = _doctors r → _patients r' = _patients r →
  _appointments r' = _appointments r → consistent r → consistent r'.
Proof.
  unfold consistent, in_doctor_list, in_patient_list, in_global_list.
  by intros -> -> ->.
Qed.

(** In a consistent registry a cancellation that throws has removed
    nothing. *)
Lemma cancelAppointment_throw_unchanged (dateTime patientName doctorName : string)
    (w : World) :
  consistent (registry w) →
  find_by_name (_doctors (registry w)) doctorName = None ∨
  find_by_name (_patients (registry w)) patientName = None →
  registry (state_after (cancelAppointment (Own dateTime)
        (Own patientName) (Own doctorName)) w) = registry w.
Proof.
  intros (Hnd & Hnp & Hdoctors & Hpatients & Hglobal) Hmissing.
  set (e0 := (dateTime, (patientName, doctorName))).
  assert (¬ in_global_list (registry w) e0) as Hnot.
  { intros [Hd Hp]%Hglobal. destruct Hmissing as [H|H]; apply find_by_name_None in H.
    - by apply holds_name in Hd.
    - by apply holds_name in Hp. }
  assert (purge (cancels dateTime patientName doctorName) (_appointments (registry w))
          = _appointments (registry w)) as Happs.
  { apply purge_id. intros a Ha. apply cancels_false. intros He.
    apply Hnot. by exists a. }
  unfold state_after.
  destruct (find_by_name (_doctors (registry w)) doctorName) as [i|] eqn:Hi.
  - destruct Hmissing as [|Hj]; [done |].
    rewrite (cancelAppointment_no_patient _ _ _ w i Hi Hj). simpl. rewrite Happs.
    rewrite alter_id_at; [by destruct (registry w) |].
    intros [n dob l] Hd. unfold delete_matching. simpl. f_equal.
    apply purge_id. intros x Hx. apply matches_false. intros ->.
    apply Hnot. eapply Hdoctors. exists (mkPerson n dob l).
    split_and!; [by eapply list_elem_of_lookup_2 | done..].
  - rewrite (cancelAppointment_no_doctor _ _ _ w Hi). simpl. rewrite Happs.
    by destruct (registry w).
Qed.

Lemma consistent_cancel (dateTime patientName doctorName : string) (w : World) :
  consistent (registry w) →
  consistent (registry (state_after (cancelAppointment (Own dateTime)
        (Own patientName) (Own doctorName)) w)).
Proof.
  intros Hc.
  destruct (find_by_name (_doctors (registry w)) doctorName) as [i|] eqn:Hi;
    [| by rewrite cancelAppointment_throw_unchanged by auto].
  destruct (find_by_name (_patients (registry w)) patientName) as [j|] eqn:Hj;
    [| by rewrite cancelAppointment_throw_unchanged by auto].
  unfold state_after. rewrite (cancelAppointment_registered _ _ _ w i j Hi Hj). simpl.
  destruct (find_by_name_Some _ _ _ Hi) as (d0 & Hd0 & Hdn & _).
  destruct (find_by_name_Some _ _ _ Hj) as (p0 & Hp0 & Hpn & _).
  destruct Hc as (Hnd & Hnp & Hdoctors & Hpatients & Hglobal).
  set (r' := mkRegistry _ _ _ _).
  assert (∀ x, in_global_list r' x ↔
               in_global_list (registry w) x ∧ x ≠ (dateTime, (patientName, doctorName)))
    as Hglobal' by (intros x; by apply in_global_list_cancel).
  unfold consistent, in_doctor_list, in_patient_list. simpl.
  split_and!.
  - by rewrite names_alter.
  - by rewrite names_alter.
  - intros n x [H Hno]%(holds_alter_delete _ _ d0); [| done..].
    destruct (Hdoctors _ _ H) as [Hn Hx]. split; [done |].
    apply Hglobal'. split; [done |]. intros ->. apply Hno. simpl in Hn. by subst n.
  - intros n x [H Hno]%(holds_alter_delete _ _ p0); [| done..].
    destruct (Hpatients _ _ H) as [Hn Hx]. split; [done |].
    apply Hglobal'. split; [done |]. intros ->. apply Hno. simpl in Hn. by subst n.
  - intros x [Hx Hno]%Hglobal'. destruct (Hglobal _ Hx) as [Hd Hp]. split.
    + apply (holds_alter_delete _ _ d0); [done..|]. split; [done | by intros [_ ?]].
    + apply (holds_alter_delete _ _ p0); [done..|]. split; [done | by intros [_ ?]].
Qed.

Lemma consistent_addPatient (n age : string) (w : World) :
  consistent (registry w) →
  consistent (registry (state_after (addPatient n age) w)).
Proof.
  intros Hc. unfold state_after.
  destruct (patientExists_loop (_patients (registry w)) n) eqn:E.
  - apply patientExists_loop_spec in E.
    destruct (find_by_name_elem_of _ _ E) as [i Hi].
    destruct (find_by_name_Some _ _ _ Hi) as (p & Hp & _).
    by rewrite (addPatient_existing n age w i p Hi Hp).
  - rewrite (addPatient_new n age w E). simpl.
    apply patientExists_loop_false in E.
    destruct Hc as (Hnd & Hnp & Hdoctors & Hpatients & Hglobal).
    unfold consistent, in_doctor_list, in_patient_list, in_global_list in *. simpl.
    split_and!; [done | | done | |].
    + rewrite fmap_app. apply NoDup_app. split_and!; [done | |].
      * intros x Hx [= ->]%list_elem_of_singleton. done.
      * apply NoDup_singleton.
    + intros m x H%holds_snoc_new; [| done]. by apply Hpatients.
    + intros x Hx. destruct (Hglobal _ Hx). split; [done |].
      by apply holds_snoc_new.
Qed.

(** ** The default schedule *)

(** A counted loop whose body returns and keeps [I] and [J] returns and
    keeps them. *)
Lemma for_range_preserves {L : Type} (I : World → Prop) (J : L → Prop)
    (body : nat → L → M L) (count i : nat) (s : L) (w : World) :
  (∀ k s w, i ≤ k < i + count → I w → J s →
     ∃ s' w', body k s w = (Returned s', w') ∧ I w' ∧ J s') →
  I w → J s →
  ∃ s' w', for_range count i body s w = (Returned s', w') ∧ I w' ∧ J s'.
Proof.
  revert i s w. induction count as [|count IH]; intros i s w Hbody HI HJ; simpl.
  - by exists s, w.
  - destruct (Hbody i s w) as (s1 & w1 & Hrun & HI1 & HJ1); [lia | done..|].
    unfold mbind, M_bind. rewrite Hrun.
    apply IH; [| done..]. intros k s2 w2 Hk. apply Hbody. lia.
Qed.

Lemma next_defaultTimeIndex_range (defaultTimeIndex : Z) :
  (0 ≤ next_defaultTimeIndex defaultTimeIndex < 8)%Z.
Proof. unfold next_defaultTimeIndex. simpl length. apply Z.mod_pos_bound. lia. Qed.

Lemma bookDefault_books (date : string) (i j : nat) (defaultTimeIndex : Z) (w : World)
    (d : Doctor) (p : Patient) :
  (0 ≤ defaultTimeIndex < 8)%Z →
  _doctors (registry w) !! i = Some d → _patients (registry w) !! j = Some p →
  ∃ time, defaultTime !! Z.to_nat defaultTimeIndex = Some time ∧
    let e := (date +:+ time, (getName p, getName d)) in
    bookDefault date i j defaultTimeIndex w =
    (Returned (next_defaultTimeIndex defaultTimeIndex),
     mkWorld (mkRegistry (_visitCards (registry w))
                (alter (appended e) i (_doctors (registry w)))
                (alter (appended e) j (_patients (registry w)))
                (_appointments (registry w) ++
                   [mkAppointment (date +:+ time) (appended e d) (appended e p)]))
             (locals w) (console w)).
Proof.
  intros Hrange Hd Hp.
  destruct (lookup_lt_is_Some_2 defaultTime (Z.to_nat defaultTimeIndex)) as [time Htime].
  { simpl. lia. }
  exists time. split; [done |]. intros e.
  unfold bookDefault, doctor_at, patient_at, update_doctor, update_patient,
    push_appointment. run.
  rewrite bool_decide_true by lia. rewrite Htime. simpl. rewrite Hd. simpl. rewrite Hp.
  simpl. rewrite list_lookup_alter_eq, Hd. simpl. rewrite list_lookup_alter_eq, Hp.
  done.
Qed.

Section Seeding.
Variable P : Registry → Prop.
Hypothesis P_booking : kept_by_booking P.

Lemma bookDefault_seedable (nd np : nat) (date : string) (i j : nat)
    (defaultTimeIndex : Z) (w : World) :
  i < nd → j < np → seedable P nd np w → (0 ≤ defaultTimeIndex < 8)%Z →
  ∃ s' w', bookDefault date i j defaultTimeIndex w = (Returned s', w') ∧
           seedable P nd np w' ∧ (0 ≤ s' < 8)%Z.
Proof.
  intros Hi Hj (Hc & Hnd & Hnp) Hrange.
  destruct (lookup_lt_is_Some_2 (_doctors (registry w)) i) as [d Hd]; [lia |].
  destruct (lookup_lt_is_Some_2 (_patients (registry w)) j) as [p Hp]; [lia |].
  destruct (bookDefault_books date i j defaultTimeIndex w d p Hrange Hd Hp)
    as (time & _ & Hrun).
  eexists _, _. split; [apply Hrun |]. split; [| apply next_defaultTimeIndex_range].
  split_and!; simpl.
  - eapply (P_booking (registry w) _ (date +:+ time) i j d p); done.
  - by rewrite length_alter.
  - by rewrite length_alter.
Qed.

Lemma scheduleDefaulteAppointmentsForDate_seedable (nd np : nat) (date : string)
    (defaultTimeIndex : Z) (doctorCount patientCount startIndex : nat) (w : World) :
  doctorCount ≤ nd → patientCount ≤ np →
  seedable P nd np w → (0 ≤ defaultTimeIndex < 8)%Z →
  ∃ w', scheduleDefaulteAppointmentsForDate date defaultTimeIndex doctorCount
          patientCount startIndex w = (Returned (), w') ∧
        seedable P nd np w'.
Proof.
  intros Hdc Hpc Hw Hrange. unfold scheduleDefaulteAppointmentsForDate, for_int.
  destruct (for_range_preserves (seedable P nd np) (λ s, (0 ≤ s < 8)%Z)
              (λ i s, for_range (patientCount - startIndex) startIndex
                        (λ j s, bookDefault date i j s) s)
              (doctorCount - startIndex) startIndex defaultTimeIndex w)
    as (s' & w' & Hrun & Hw' & _); [| done..|].
  - intros i s1 w1 Hi Hw1 Hs1. apply for_range_preserves; [| done..].
    intros j s2 w2 Hj Hw2 Hs2. apply bookDefault_seedable; [lia.. | done | done].
  - exists w'. split; [| done]. unfold mbind, M_bind. by rewrite Hrun.
Qed.

(** The default schedule never indexes past the end and never throws. *)
Lemma generateDefaultAppointments_keeps (today_date tomorrow_date : string) (w : World) :
  P (registry w) →
  result_of (generateDefaultAppointments today_date tomorrow_date) w = Returned () ∧
  P (registry (state_after (generateDefaultAppointments today_date tomorrow_date) w)).
Proof.
  intros HP.
  set (nd := length (_doctors (registry w))). set (np := length (_patients (registry w))).
  assert (seedable P nd np w) as Hw by done.
  destruct (scheduleDefaulteAppointmentsForDate_seedable nd np today_date 0
              (nd / 2) (np / 2) 0 w) as (w1 & Hrun1 & Hw1); [| | done | lia |].
  { apply Nat.Div0.div_le_upper_bound. lia. }
  { apply Nat.Div0.div_le_upper_bound. lia. }
  pose proof Hw1 as (_ & Hnd1 & Hnp1).
  destruct (scheduleDefaulteAppointmentsForDate_seedable nd np tomorrow_date 7
              nd np 4 w1) as (w2 & Hrun2 & Hw2 & _); [done.. | lia |].
  assert (generateDefaultAppointments today_date tomorrow_date w = (Returned (), w2))
    as Hrun.
  { unfold generateDefaultAppointments. run. fold nd np. rewrite Hrun1.
    by rewrite Hnd1, Hnp1. }
  unfold result_of, state_after. by rewrite Hrun.
Qed.

End Seeding.

Lemma consistent_kept_by_booking : kept_by_booking consistent.
Proof. intros r r' dateTime i j d p a e. by apply consistent_book. Qed.

Lemma default_staff_kept_by_booking : kept_by_booking default_staff.
Proof.
  intros r r' dateTime i j d p a e Hr _ _ Hds _ _ _. unfold default_staff in *.
  rewrite Hds. by rewrite names_alter.
Qed.

(** ** Steps *)

Lemma reach_call (allowed : World → Call → Prop) (w0 w : World) (c : Call) :
  reachable_by allowed w0 w → allowed w c → result_of (perform c) w ≠ Undefined →
  reachable_by allowed w0 (state_after (perform c) w).
Proof. intros Hreach Hcall Hdef. by eapply reach_step. Qed.

Lemma reachable_two_bookings (allowed : World → Call → Prop) :
  (∀ w dateTime i patient,
     patientExists_loop (_patients (registry w)) (getName patient) = true →
     allowed w (ScheduleAppointment dateTime (InRegistry i) patient)) →
  reachable_by allowed World_new two_bookings.
Proof.
  intros Hallowed.
  apply (reach_call allowed _ _
           (ScheduleAppointment "2025-01-10 09:30" (InRegistry 1)
              (Patient_new "Bob Johnson" "22.06.2000"))).
  - apply (reach_call allowed _ _
             (ScheduleAppointment "2025-01-10 09:00" (InRegistry 0)
                (Patient_new "Alice Smith" "23.08.1997"))).
    + apply reach_start.
    + by apply Hallowed.
    + intros H. vm_compute in H. discriminate H.
  - by apply Hallowed.
  - intros H. vm_compute in H. discriminate H.
Qed.

Lemma state_after_forget {A : Type} (m : M A) (w : World) :
  state_after (forget m) w = state_after m w.
Proof.
  unfold state_after, forget, mbind, M_bind. by destruct (m w) as [[a| |] w'].
Qed.

Lemma result_of_forget {A : Type} (m : M A) (w : World) :
  result_of (forget m) w = Undefined ↔ result_of m w = Undefined.
Proof.
  unfold result_of, forget, mbind, M_bind. by destruct (m w) as [[a| |] w'].
Qed.

Lemma getAvailableDoctors_state (date : string) (w : World) :
  state_after (getAvailableDoctors date) w = w.
Proof.
  unfold state_after, getAvailableDoctors. run. by rewrite getAvailableTimes_slots.
Qed.

(** A call that is no booking, cancellation, registration or seeding leaves
    the doctors, the patients and the appointments alone. *)
Lemma step_frame (c : Call) (w w' : World) :
  step c w w' →
  match c with
  | AddHospitalVisitCard _ _ _ _ | PatientExists _ | GetAvailableTimes _
  | GetAvailableTimesForDoctor _ _ | GetAvailableDoctors _
  | GetVisitCardsForPatient _ =>
      _doctors (registry w') = _doctors (registry w) ∧
      _patients (registry w') = _patients (registry w) ∧
      _appointments (registry w') = _appointments (registry w)
  | _ => True
  end.
Proof.
  intros [_ <-]. destruct c; done.
Qed.

Lemma addPatient_frame (n age : string) (w : World) :
  _doctors (registry (state_after (addPatient n age) w)) = _doctors (registry w) ∧
  _appointments (registry (state_after (addPatient n age) w)) = _appointments (registry w).
Proof.
  unfold state_after.
  destruct (patientExists_loop (_patients (registry w)) n) eqn:E.
  - apply patientExists_loop_spec in E.
    destruct (find_by_name_elem_of _ _ E) as [i Hi].
    destruct (find_by_name_Some _ _ _ Hi) as (p & Hp & _).
    by rewrite (addPatient_existing n age w i p Hi Hp).
  - by rewrite (addPatient_new n age w E).
Qed.

(** What [scheduleAppointment] does to the registry when handed one of the
    registry's own doctors. *)
Lemma scheduleAppointment_own_cases (dateTime : string) (i : nat) (patient : Patient)
    (w w' : World) :
  step (ScheduleAppointment dateTime (InRegistry i) patient) w w' →
  ∃ d, _doctors (registry w) !! i = Some d ∧
    let e := (dateTime, (getName patient, getName d)) in
    (registry w' = registry w ∨
     (¬ booked_at d dateTime ∧
      (getName patient ∉ getName <$> _patients (registry w)) ∧
      _doctors (registry w') = alter (appended e) i (_doctors (registry w)) ∧
      _patients (registry w') = _patients (registry w) ∧
      _appointments (registry w') = _appointments (registry w)) ∨
     (¬ booked_at d dateTime ∧
      ∃ j p a, _patients (registry w) !! j = Some p ∧ getName p = getName patient ∧
        _doctors (registry w') = alter (appended e) i (_doctors (registry w)) ∧
        _patients (registry w') = alter (appended e) j (_patients (registry w)) ∧
        _appointments (registry w') = _appointments (registry w) ++ [a] ∧
        triple a = e)).
Proof.
  intros [Hdef <-]. simpl in *. unfold result_of, state_after in *.
  destruct (_doctors (registry w) !! i) as [d|] eqn:Hd.
  2:{ exfalso. apply Hdef. unfold scheduleAppointment. run.
      by rewrite (read_doctor_dangling (InRegistry i) w). }
  exists d. split; [done |]. cbv zeta.
  destruct (isAvailable d dateTime) eqn:Hfree.
  2:{ left. by rewrite (scheduleAppointment_refused _ (InRegistry i) _ w d Hd Hfree). }
  pose proof (proj1 (isAvailable_spec _ _) Hfree) as Hnot.
  destruct (find_by_name (_patients (registry w)) (getName patient)) as [j|] eqn:Hj.
  - destruct (find_by_name_Some _ _ _ Hj) as (p & Hp & Hname & _).
    right. right. split; [done |].
    rewrite (scheduleAppointment_booked _ (InRegistry i) _ w d j p Hd Hfree Hj Hp).
    eexists j, p, _. simpl. split_and!; try done.
    unfold triple, getName in *. simpl. by rewrite Hname.
  - right. left. split; [done |].
    rewrite (scheduleAppointment_patient_missing _ (InRegistry i) _ w d Hd Hfree Hj).
    split; [by apply find_by_name_None |]. done.
Qed.

Lemma consistent_step (c : Call) (w w' : World) :
  registered_call w c → step c w w' →
  consistent (registry w) → consistent (registry w').
Proof.
  intros Hcall Hstep Hc. pose proof (step_frame c w w' Hstep) as Hframe.
  destruct c as [today tomorrow|dateTime [i|k] patient|dateTime pn dn|n age| | | | | |];
    try (destruct Hframe as (? & ? & ?); by eapply consistent_fields).
  - destruct Hstep as [_ <-].
    by apply (generateDefaultAppointments_keeps consistent consistent_kept_by_booking).
  - apply patientExists_loop_spec in Hcall.
    destruct (scheduleAppointment_own_cases _ _ _ _ _ Hstep)
      as (d & Hd & [->|[(_ & Hno & _)|(_ & j & p & a & Hp & Hname & Hds & Hps & Happs & Ha)]]);
      [done.. |].
    rewrite <- Hname in *.
    by eapply (consistent_book (registry w) _ dateTime i j d p a).
  - done.
  - destruct Hcall as ([dt ->]%own_string_inv & [pn' ->]%own_string_inv &
                       [dn' ->]%own_string_inv).
    destruct Hstep as [_ <-]. by apply consistent_cancel.
  - destruct Hstep as [_ <-]. simpl. rewrite state_after_forget.
    by apply consistent_addPatient.
Qed.

Lemma consistent_reachable (w0 w : World) :
  consistent (registry w0) → reachable_by registered_call w0 w → consistent (registry w).
Proof.
  intros Hc0 Hreach. induction Hreach as [|w w' c _ IH Hcall Hstep]; [done |].
  by eapply consistent_step.
Qed.

(** ** Mirror consistency *)

(** The claim C4 as it is written fails for arguments the menu never
    passes: a booking through a [Doctor] object of the caller reaches the
    patient's list and the global list but not the registry's doctor; a
    booking for a patient who is not registered reaches the doctor's list
    only; and, after bookings through the registry's own doctors for
    registered patients, a [cancelAppointment] handed the strings of the
    first appointment of the global list removes that appointment from the
    global list and leaves it in the lists of its doctor and its patient. *)
Lemma mirror_broken_by_other_arguments :
  (∃ w, reachable_by any_call (mkWorld Registry_new [Doctor_new "John Smith"] []) w ∧
        ¬ mirrored (registry w)) ∧
  (∃ w, reachable_by any_call World_new w ∧ ¬ mirrored (registry w)) ∧
  (∃ w, reachable_by registered_booking_call World_new w ∧ ¬ mirrored (registry w)).
Proof.
  split_and!.
  - eexists. split.
    + eapply (reach_step _ _ _ _
                (ScheduleAppointment "2025-01-10 09:00" (InCaller 0)
                   (Patient_new "Alice Smith" "23.08.1997")));
        [apply reach_start | done | split; [| reflexivity]].
      intros H. vm_compute in H. discriminate H.
    + intros H.
      destruct (H ("2025-01-10 09:00", ("Alice Smith", "John Smith"))) as [[_ Hd] _].
      destruct Hd as (d & Hd & _ & He).
      * eexists. split_and!; [apply list_elem_of_here | reflexivity |].
        apply list_elem_of_here.
      * vm_compute in Hd.
        repeat (apply elem_of_cons in Hd as [->|Hd]; [by apply elem_of_nil in He |]).
        by apply elem_of_nil in Hd.
  - eexists. split.
    + eapply (reach_step _ _ _ _
                (ScheduleAppointment "2025-01-10 09:00" (InRegistry 0)
                   (Patient_new "Zed Quill" "01.01.2000")));
        [apply reach_start | done | split; [| reflexivity]].
      intros H. vm_compute in H. discriminate H.
    + intros H.
      destruct (H ("2025-01-10 09:00", ("Zed Quill", "John Smith"))) as [[Hp _] _].
      destruct Hp as (p & Hp & _ & He).
      * eexists. split_and!; [apply list_elem_of_here | reflexivity |].
        apply list_elem_of_here.
      * vm_compute in Hp.
        repeat (apply elem_of_cons in Hp as [->|Hp]; [by apply elem_of_nil in He |]).
        by apply elem_of_nil in Hp.
  - exists (state_after cancel_first_appointment two_bookings). split.
    + apply (reach_call registered_booking_call _ _
               (CancelAppointment (of_first_appointment DateTime)
                  (of_first_appointment PatientName) (of_first_appointment DoctorName))).
      * by apply reachable_two_bookings.
      * exact I.
      * intros H. vm_compute in H. discriminate H.
    + intros H.
      destruct (H ("2025-01-10 09:00", ("Alice Smith", "John Smith")))
        as [[Hdp _] [Hpg _]].
      destruct Hpg as (a & Ha & Htriple).
      * apply Hdp. eexists. split_and!; [apply list_elem_of_here | reflexivity |].
        apply list_elem_of_here.
      * vm_compute in Ha. apply list_elem_of_singleton in Ha. subst a.
        discriminate Htriple.
Qed.

(** C4, amended: in every state reached from a freshly constructed registry
    by calls of the public operations in which [scheduleAppointment] is
    handed one of the registry's own doctor records and a patient whose name
    is registered, and [cancelAppointment] strings of the caller's own, an
    entry is in the named doctor's list if and only if it is in the named
    patient's list, if and only if an Appointment with that dateTime,
    patient name and doctor name is in the global list. *)
Theorem mirror_consistency (w0 w : World) :
  registry w0 = Registry_new →
  reachable_by registered_call w0 w →
  mirrored (registry w).
Proof.
  intros Hnew Hreach. apply consistent_mirrored.
  apply (consistent_reachable w0 w); [| done]. rewrite Hnew. apply consistent_new.
Qed.

Lemma mirror_consistency_witness :
  mirrored (registry (state_after
    (cancelAppointment (Own "2025-01-10 09:00") (Own "Alice Smith") (Own "John Smith"))
    two_bookings)).
Proof.
  apply (mirror_consistency World_new).
  - reflexivity.
  - apply (reach_call registered_call _ _
             (CancelAppointment (Own "2025-01-10 09:00") (Own "Alice Smith")
                (Own "John Smith"))).
    + apply reachable_two_bookings. by intros w dateTime i patient Hreg.
    + by split_and!.
    + intros H. vm_compute in H. discriminate H.
Defined.

(** ** No double-booking *)




(** What [cancelAppointment] does to the doctors and to the global list,
    however it ends. *)
Lemma cancelAppointment_cases (dateTime patientName doctorName : string) (w : World) :
  let r := registry w in
  let r' := registry (state_after (cancelAppointment (Own dateTime)
        (Own patientName) (Own doctorName)) w) in
  _appointments r' = purge (cancels dateTime patientName doctorName) (_appointments r) ∧
  (_doctors r' = _doctors r ∨
   ∃ i d, _doctors r !! i = Some d ∧ getName d = doctorName ∧
          _doctors r' =
          alter (delete_matching dateTime patientName doctorName) i (_doctors r)).
Proof.
  intros r r'. subst r r'. unfold state_after.
  destruct (find_by_name (_doctors (registry w)) doctorName) as [i|] eqn:Hi.
  - destruct (find_by_name_Some _ _ _ Hi) as (d & Hd & Hn & _).
    destruct (find_by_name (_patients (registry w)) patientName) as [j|] eqn:Hj.
    + rewrite (cancelAppointment_registered _ _ _ w i j Hi Hj). simpl.
      split; [done |]. right. by exists i, d.
    + rewrite (cancelAppointment_no_patient _ _ _ w i Hi Hj). simpl.
      split; [done |]. right. by exists i, d.
  - rewrite (cancelAppointment_no_doctor _ _ _ w Hi). simpl. split; [done | by left].
Qed.




(** ** The seeded registry *)

Lemma seed_bookings_example :
  seed_bookings "T" "U" =
  [ ("T 17:00", ("Alice Smith", "John Smith")); ("T 10:00", ("Bob Johnson", "John Smith"));
    ("T 15:00", ("Charlie Brown", "John Smith")); ("T 09:00", ("Diana Davis", "John Smith"));
    ("T 13:30", ("Alice Smith", "Emily Johnson")); ("T 14:00", ("Bob Johnson", "Emily Johnson"));
    ("T 08:30", ("Charlie Brown", "Emily Johnson")); ("T 12:30", ("Diana Davis", "Emily Johnson"));
    ("T 17:00", ("Alice Smith", "David Brown")); ("T 10:00", ("Bob Johnson", "David Brown"));
    ("T 15:00", ("Charlie Brown", "David Brown")); ("T 09:00", ("Diana Davis", "David Brown"));
    ("T 13:30", ("Alice Smith", "Sarah Lee")); ("T 14:00", ("Bob Johnson", "Sarah Lee"));
    ("T 08:30", ("Charlie Brown", "Sarah Lee")); ("T 12:30", ("Diana Davis", "Sarah Lee"));
    ("U 10:00", ("Eva Martinez", "Michael Wilson")); ("U 15:00", ("Frank Lopez", "Michael Wilson"));
    ("U 09:00", ("Grace Lee", "Michael Wilson")); ("U 13:30", ("Henry Jackson", "Michael Wilson"));
    ("U 14:00", ("Eva Martinez", "Alexandra Garcia")); ("U 08:30", ("Frank Lopez", "Alexandra Garcia"));
    ("U 12:30", ("Grace Lee", "Alexandra Garcia")); ("U 17:00", ("Henry Jackson", "Alexandra Garcia"));
    ("U 10:00", ("Eva Martinez", "Matthew Taylor")); ("U 15:00", ("Frank Lopez", "Matthew Taylor"));
    ("U 09:00", ("Grace Lee", "Matthew Taylor")); ("U 13:30", ("Henry Jackson", "Matthew Taylor"));
    ("U 14:00", ("Eva Martinez", "Olivia Martinez")); ("U 08:30", ("Frank Lopez", "Olivia Martinez"));
    ("U 12:30", ("Grace Lee", "Olivia Martinez")); ("U 17:00", ("Henry Jackson", "Olivia Martinez")) ].
Proof. reflexivity. Qed.





(** C8: on a fresh registry the default-seed generator returns normally and
    books, for today, doctors 0..3 with patients 0..3 and, for tomorrow,
    doctors 4..7 with patients 4..7, the k-th booking of a day taking the
    time at index (0 - k) mod 8, respectively (7 - k) mod 8, of the fixed
    list; each booking is appended to the doctor's list, the patient's list
    and the global list, and nothing else changes.  No availability is
    checked: seeding the seeded registry again books every slot again.  The
    result is a function of the two date strings alone. *)
Theorem generateDefaultAppointments_seeds (today_date tomorrow_date : string)
    (callers : list Doctor) (lines : list string) :
  let seed := generateDefaultAppointments today_date tomorrow_date in
  let w := mkWorld Registry_new callers lines in
  let w' := state_after seed w in
  let bookings := seed_bookings today_date tomorrow_date in
  result_of seed w = Returned () ∧
  triple <$> _appointments (registry w') = bookings ∧
  _doctors (registry w') =
    (λ d, mkPerson (name d) (dateOfBirth d) (bookings_of_doctor bookings d))
      <$> default_doctors ∧
  _patients (registry w') =
    (λ p, mkPerson (name p) (dateOfBirth p) (bookings_of_patient bookings p))
      <$> default_patients ∧
  _visitCards (registry w') = [] ∧
  locals w' = callers ∧ console w' = lines ∧
  result_of seed w' = Returned () ∧
  triple <$> _appointments (registry (state_after seed w')) = bookings ++ bookings ∧
  ∀ callers' lines',
    registry (state_after seed (mkWorld Registry_new callers' lines')) = registry w'.
Proof.
  intros seed w w' bookings. split_and!; [reflexivity.. |].
  intros callers' lines'. vm_compute. reflexivity.
Qed.




(** ** The doctors stay the same *)

Lemma scheduleAppointment_caller_doctors (dateTime : string) (k : nat) (patient : Patient)
    (w : World) :
  _doctors (registry (state_after (scheduleAppointment dateTime (InCaller k) patient) w))
  = _doctors (registry w).
Proof.
  unfold state_after.
  destruct (locals w !! k) as [d|] eqn:Hd.
  2:{ unfold scheduleAppointment. run.
      by rewrite (read_doctor_dangling (InCaller k) w). }
  destruct (isAvailable d dateTime) eqn:Hfree.
  2:{ by rewrite (scheduleAppointment_refused _ (InCaller k) _ w d Hd Hfree). }
  destruct (find_by_name (_patients (registry w)) (getName patient)) as [j|] eqn:Hj.
  - destruct (find_by_name_Some _ _ _ Hj) as (p & Hp & _).
    by rewrite (scheduleAppointment_booked _ (InCaller k) _ w d j p Hd Hfree Hj Hp).
  - by rewrite (scheduleAppointment_patient_missing _ (InCaller k) _ w d Hd Hfree Hj).
Qed.

Lemma default_staff_step (c : Call) (w w' : World) :
  step c w w' → default_staff (registry w) → default_staff (registry w').
Proof.
  intros Hstep Hs. pose proof (step_frame c w w' Hstep) as Hframe.
  unfold default_staff in *.
  destruct c as [today tomorrow|dateTime [i|k] patient|dateTime pn dn|n age| | | | | |];
    try (destruct Hframe as (-> & _); done).
  - destruct Hstep as [_ <-].
    by apply (generateDefaultAppointments_keeps default_staff default_staff_kept_by_booking).
  - destruct (scheduleAppointment_own_cases _ _ _ _ _ Hstep)
      as (d & Hd & [->|[(_ & _ & -> & _)|(_ & j & p & a & _ & _ & -> & _)]]);
      [done | by rewrite names_alter..].
  - destruct Hstep as [_ <-]. simpl. by rewrite scheduleAppointment_caller_doctors.
  - destruct Hstep as [_ <-]. simpl.
    by destruct (cancelAppointment_same_people dateTime pn dn w) as (-> & _).
  - destruct Hstep as [_ <-]. simpl. rewrite state_after_forget.
    by destruct (addPatient_frame n age w) as [-> _].
Qed.

Lemma default_staff_reachable (w0 w : World) :
  registry w0 = Registry_new → reachable_by any_call w0 w → default_staff (registry w).
Proof.
  intros Hnew Hreach. induction Hreach as [|w w' c _ IH _ Hstep].
  - by rewrite Hnew.
  - by eapply default_staff_step.
Qed.

Lemma default_staff_NoDup (r : Registry) :
  default_staff r → NoDup (getName <$> _doctors r).
Proof. intros ->. apply (bool_decide_unpack _). by vm_compute. Qed.

(** The claim C6 as it is written fails in both halves.  Handed a copy of
    the registered doctor John Smith, [scheduleAppointment] books the slot
    for Alice Smith and returns, and the slot is still listed for John Smith:
    the registry's own record was not touched.  And where the registry's own
    record is then booked at the slot, a [cancelAppointment] handed the
    strings of the first appointment of the global list, which hold that
    same triple, cancels the appointment the erase-remove moves under them
    instead, and the slot is not listed again. *)
Lemma slot_symmetry_broken :
  let t := "2025-01-10 09:00" in
  let alice := Patient_new "Alice Smith" "23.08.1997" in
  let w := mkWorld Registry_new [Doctor_new "John Smith"] [] in
  let w1 := state_after (scheduleAppointment t (InCaller 0) alice) w in
  let w2 := state_after (scheduleAppointment "2025-01-10 09:30" (InRegistry 1) alice) w1 in
  let w3 := state_after (scheduleAppointment t (InRegistry 0) alice) w2 in
  let w4 := state_after cancel_first_appointment w3 in
  (locals w !! 0 = _doctors (registry w) !! 0 ∧
   result_of (scheduleAppointment t (InCaller 0) alice) w = Returned () ∧
   t ∈ available_times_for "2025-01-10" "John Smith" w1) ∧
  (result_of (scheduleAppointment t (InRegistry 0) alice) w2 = Returned () ∧
   (t ∉ available_times_for "2025-01-10" "John Smith" w3) ∧
   content (registry w3) (of_first_appointment DateTime) = Some t ∧
   content (registry w3) (of_first_appointment PatientName) = Some "Alice Smith" ∧
   content (registry w3) (of_first_appointment DoctorName) = Some "John Smith" ∧
   result_of cancel_first_appointment w3 = Returned () ∧
   (t ∉ available_times_for "2025-01-10" "John Smith" w4)).
Proof.
  intros t alice w w1 w2 w3 w4.
  split_and!; try reflexivity.
  - apply (bool_decide_unpack _). by vm_compute.
  - apply (bool_decide_unpack _). by vm_compute.
  - apply (bool_decide_unpack _). by vm_compute.
Qed.

(** C6, amended: in a registry reached from a fresh one, for a working-hours
    slot of a date, one of the registry's own doctor records, free at that
    slot, and a registered patient: after [scheduleAppointment] of the slot
    with that record and patient the slot's dateTime is not among
    [getAvailableTimesForDoctor] of the date and the doctor's name; after
    [cancelAppointment] of the same triple, handed as strings of the
    caller's own, it is among them again. *)
Theorem slot_symmetry (w0 w : World) (date : string) (slot : nat * nat)
    (i : nat) (d : Doctor) (patient : Patient) :
  registry w0 = Registry_new → reachable_by any_call w0 w →
  slot ∈ working_slots →
  _doctors (registry w) !! i = Some d →
  patientExists_loop (_patients (registry w)) (getName patient) = true →
  isAvailable d (slot_of date slot) = true →
  let t := slot_of date slot in
  let w1 := state_after (scheduleAppointment t (InRegistry i) patient) w in
  let w2 := state_after (cancelAppointment (Own t) (Own (getName patient)) (Own (getName d))) w1 in
  (t ∉ available_times_for date (getName d) w1) ∧
  (t ∈ available_times_for date (getName d) w2).
Proof.
  intros Hnew Hreach. apply slot_symmetry_distinct_names.
  apply default_staff_NoDup. by eapply default_staff_reachable.
Qed.

Lemma slot_symmetry_witness :
  let t := "2025-01-10 09:00" in
  let alice := Patient_new "Alice Smith" "23.08.1997" in
  let w1 := state_after (scheduleAppointment t (InRegistry 0) alice) World_new in
  let w2 := state_after (cancelAppointment (Own t) (Own "Alice Smith") (Own "John Smith")) w1 in
  (t ∉ available_times_for "2025-01-10" "John Smith" w1) ∧
  (t ∈ available_times_for "2025-01-10" "John Smith" w2).
Proof.
  apply (slot_symmetry World_new World_new "2025-01-10" (9, 0) 0
           (Doctor_new "John Smith") (Patient_new "Alice Smith" "23.08.1997")).
  - reflexivity.
  - apply reach_start.
  - vm_compute. do 2 apply list_elem_of_further. apply list_elem_of_here.
  - reflexivity.
  - reflexivity.
  - reflexivity.
Defined.

(** * Further properties of the code *)

(** ** Lookups *)

(** X1: [findDoctorByName] and [findPatientByName] change nothing; each
    returns the first person of its vector with the name, and throws
    ("Doctor not found.", "Patient not found.") exactly when no one has
    it. *)
Theorem find_first_or_throw (n : string) (w : World) :
  state_after (findDoctorByName n) w = w ∧
  state_after (findPatientByName n) w = w ∧
  match result_of (findDoctorByName n) w with
  | Returned i => ∃ d, _doctors (registry w) !! i = Some d ∧ getName d = n ∧
                       n ∉ getName <$> take i (_doctors (registry w))
  | Thrown what => what = "Doctor not found." ∧ n ∉ getName <$> _doctors (registry w)
  | Undefined => False
  end ∧
  match result_of (findPatientByName n) w with
  | Returned j => ∃ p, _patients (registry w) !! j = Some p ∧ getName p = n ∧
                       n ∉ getName <$> take j (_patients (registry w))
  | Thrown what => what = "Patient not found." ∧ n ∉ getName <$> _patients (registry w)
  | Undefined => False
  end.
Proof.
  unfold state_after, result_of, findDoctorByName, findPatientByName. run. simpl.
  split_and!.
  - by destruct (find_by_name _ n).
  - by destruct (find_by_name _ n).
  - destruct (find_by_name (_doctors (registry w)) n) as [i|] eqn:E; simpl.
    + by apply find_by_name_Some.
    + split; [done | by apply find_by_name_None].
  - destruct (find_by_name (_patients (registry w)) n) as [j|] eqn:E; simpl.
    + by apply find_by_name_Some.
    + split; [done | by apply find_by_name_None].
Qed.

(** X2: [patientExists(name)] returns true exactly when
    [findPatientByName(name)] returns rather than throws. *)
Theorem patientExists_iff_found (n : string) (w : World) :
  ∃ b, result_of (patientExists n) w = Returned b ∧
       (b = true ↔ ∃ j, result_of (findPatientByName n) w = Returned j).
Proof.
  exists (patientExists_loop (_patients (registry w)) n). split; [done |].
  unfold result_of, findPatientByName. run. simpl.
  rewrite patientExists_loop_spec. split.
  - intros [j Hj]%find_by_name_elem_of. exists j. by rewrite Hj.
  - intros [j Hj]. destruct (find_by_name _ n) as [i|] eqn:E; [| done].
    destruct (find_by_name_Some _ _ _ E) as (p & Hp & <- & _).
    apply list_elem_of_fmap. exists p. split; [done |]. by eapply list_elem_of_lookup_2.
Qed.

(** X3: [getByIndex] never reads past the end: it returns [items[index]]
    exactly for 0 <= index < size, throws "Invalid index." for every other
    index, and changes nothing. *)
Theorem getByIndex_bounds {T : Type} (index : Z) (items : list T) (w : World) :
  state_after (getByIndex index items) w = w ∧
  result_of (getByIndex index items) w ≠ Undefined ∧
  (result_of (getByIndex index items) w = Thrown "Invalid index." ↔
   ¬ (0 ≤ index < Z.of_nat (length items))%Z) ∧
  ∀ x, result_of (getByIndex index items) w = Returned x ↔
       (0 ≤ index)%Z ∧ items !! Z.to_nat index = Some x.
Proof.
  unfold state_after, result_of, getByIndex. case_bool_decide as Hrange.
  - destruct (lookup_lt_is_Some_2 items (Z.to_nat index)) as [x Hx]; [lia |].
    rewrite Hx. simpl. split_and!; [done | done | |].
    + split; [done | tauto].
    + intros y. split; [intros [= ->]; split; [lia | done] | intros [_ [= ->]]; done].
  - simpl. split_and!; [done | done | tauto |].
    intros x. split; [done |]. intros [H0 Hx]. exfalso. apply Hrange.
    apply lookup_lt_Some in Hx. lia.
Qed.

(** ** A person's list *)

(** X4: handed three strings that are no strings of the person's own list,
    [deleteAppointment] reads no dead string, keeps the name and the date of
    birth, and removes every entry equal to the triple in all three fields
    and no other, keeping the order of the rest; a second call changes
    nothing more; it undoes an [addAppointment] of the triple, taking any
    earlier copy of the entry with it; and it changes nothing exactly when
    the entry is absent. *)
Theorem deleteAppointment_exact (dateTime patientName doctorName : string)
    (p : AbstractPerson) :
  let e := (dateTime, (patientName, doctorName)) in
  let delete := deleteAppointment (Outside dateTime) (Outside patientName)
                  (Outside doctorName) in
  ∃ p', delete p = Some p' ∧
    name p' = name p ∧ dateOfBirth p' = dateOfBirth p ∧
    appointments p' = filter (λ x, x ≠ e) (appointments p) ∧
    delete p' = Some p' ∧
    delete (addAppointment dateTime patientName doctorName p) = Some p' ∧
    (p' = p ↔ e ∉ appointments p).
Proof.
  intros e delete. subst delete.
  exists (delete_matching dateTime patientName doctorName p).
  rewrite !deleteAppointment_outside.
  split_and!; [done | done | done | | | |].
  - rewrite delete_matching_without. done.
  - f_equal. unfold delete_matching. simpl. f_equal.
    apply purge_id. by intros x [_ ?]%elem_of_purge.
  - f_equal. unfold delete_matching, addAppointment. simpl. f_equal.
    rewrite !purge_filter, filter_app, filter_cons, decide_False, filter_nil.
    + by rewrite app_nil_r.
    + intros H. apply matches_false in H. by apply H.
  - split.
    + intros Heq He. rewrite <- Heq in He. simpl in He.
      apply elem_of_purge in He as [_ Hno%matches_false]. by apply Hno.
    + intros He. destruct p as [n dob l]. unfold delete_matching. simpl in *. f_equal.
      apply purge_id. intros x Hx. apply matches_false. by intros ->.
Qed.

(** X5: [Doctor::isAvailable] looks at the dateTime of the entries only.
    After [addAppointment] at [dateTime] the doctor is not available at
    [dateTime] and as available as before at every other dateTime; after
    [deleteAppointment] of a triple, handed as strings that are no strings
    of the doctor's own list, the doctor is available at its dateTime
    exactly when every entry the doctor had at that dateTime was that
    triple. *)
Theorem isAvailable_after (d : Doctor) (dateTime patientName doctorName other : string) :
  isAvailable (addAppointment dateTime patientName doctorName d) other =
    isAvailable d other && negb (String.eqb dateTime other) ∧
  ∃ d', deleteAppointment (Outside dateTime) (Outside patientName)
          (Outside doctorName) d = Some d' ∧
    (isAvailable d' dateTime = true ↔
     ∀ e, e ∈ appointments d → e.1 = dateTime → e = (dateTime, (patientName, doctorName))).
Proof.
  split.
  - unfold isAvailable, addAppointment. simpl.
    induction (appointments d) as [|e l IH]; simpl.
    + by destruct (String.eqb dateTime other).
    + destruct (String.eqb e.1 other); [done | apply IH].
  - exists (delete_matching dateTime patientName doctorName d).
    split; [apply deleteAppointment_outside |].
    rewrite isAvailable_spec. unfold booked_at, delete_matching. simpl. split.
    + intros Hfree e He Ht. destruct (decide (e = (dateTime, (patientName, doctorName))))
        as [|Hne]; [done |]. exfalso. apply Hfree. apply list_elem_of_fmap.
      exists e. split; [done |]. apply elem_of_purge. split; [done |].
      by apply matches_false.
    + intros Hall (e & Ht & [He Hno%matches_false]%elem_of_purge)%list_elem_of_fmap.
      apply Hno. by apply Hall.
Qed.

(** ** Booking *)

Lemma registered_found (patients : list Patient) (n : string) :
  patientExists_loop patients n = true →
  ∃ j p, find_by_name patients n = Some j ∧ patients !! j = Some p ∧ getName p = n.
Proof.
  intros [j Hj]%patientExists_loop_spec%find_by_name_elem_of.
  destruct (find_by_name_Some _ _ _ Hj) as (p & Hp & Hn & _). by exists j, p.
Qed.

Lemma find_by_name_alter (f : AbstractPerson → AbstractPerson) (i : nat)
    (people : list AbstractPerson) (n : string) :
  (∀ x, getName (f x) = getName x) →
  find_by_name (alter f i people) n = find_by_name people n.
Proof. intros Hf. apply find_by_name_names. by apply names_alter. Qed.

(** X6: handed a patient whose name is not registered and a doctor who is
    free at [dateTime], [scheduleAppointment] throws "Patient not found."
    with the entry already appended to the doctor's list: the patients, the
    global list and the console are as before. *)
Theorem scheduleAppointment_unknown_patient (dateTime : string) (ref : DoctorRef)
    (patient : Patient) (w : World) (d : Doctor) :
  doctor_of w ref = Some d → isAvailable d dateTime = true →
  patientExists_loop (_patients (registry w)) (getName patient) = false →
  let w' := state_after (scheduleAppointment dateTime ref patient) w in
  result_of (scheduleAppointment dateTime ref patient) w = Thrown "Patient not found." ∧
  doctor_of w' ref = Some (appended (dateTime, (getName patient, getName d)) d) ∧
  _patients (registry w') = _patients (registry w) ∧
  _appointments (registry w') = _appointments (registry w) ∧
  console w' = console w.
Proof.
  intros Hd Hfree Hno%patientExists_loop_false%find_by_name_None w'. subst w'.
  unfold result_of, state_after.
  rewrite (scheduleAppointment_patient_missing _ _ _ w d Hd Hfree Hno).
  split_and!; [done | | by destruct ref..].
  unfold written. destruct ref; simpl in *; by rewrite list_lookup_alter_eq, Hd.
Qed.

Lemma scheduleAppointment_unknown_patient_witness :
  result_of (scheduleAppointment "2025-01-10 09:00" (InRegistry 0)
               (Patient_new "Zed Quill" "01.01.2000")) World_new
  = Thrown "Patient not found.".
Proof.
  refine (proj1 (scheduleAppointment_unknown_patient "2025-01-10 09:00" (InRegistry 0)
                   (Patient_new "Zed Quill" "01.01.2000") World_new
                   (Doctor_new "John Smith") _ _ _)); reflexivity.
Defined.

(** X7: [scheduleAppointment] checks and updates the object it is handed,
    not the registry's record of that doctor.  A booking through a caller's
    copy of a registered doctor leaves the registry's doctors as they were,
    so a second booking of the same dateTime through the registry's own
    record is accepted too, and the global list then holds two appointments
    with the same (doctorName, dateTime). *)
Theorem caller_copy_double_books (dateTime : string) (i k : nat) (d d' : Doctor)
    (first second : Patient) (w : World) :
  _doctors (registry w) !! i = Some d → locals w !! k = Some d' →
  getName d' = getName d →
  isAvailable d dateTime = true → isAvailable d' dateTime = true →
  patientExists_loop (_patients (registry w)) (getName first) = true →
  patientExists_loop (_patients (registry w)) (getName second) = true →
  let w1 := state_after (scheduleAppointment dateTime (InCaller k) first) w in
  let w2 := state_after (scheduleAppointment dateTime (InRegistry i) second) w1 in
  _doctors (registry w1) = _doctors (registry w) ∧
  ¬ no_double_booking (registry w2).
Proof.
  intros Hd Hd' Hname Hfree Hfree' (j1 & p1 & Hj1 & Hp1 & _)%registered_found
    (j2 & p2 & Hj2 & Hp2 & _)%registered_found w1 w2.
  subst w2 w1. unfold state_after.
  rewrite (scheduleAppointment_booked _ (InCaller k) _ w d' j1 p1 Hd' Hfree' Hj1 Hp1).
  simpl. split; [done |].
  set (w1 := mkWorld _ _ _).
  assert (∃ p2', _patients (registry w1) !! j2 = Some p2') as [p2' Hp2'].
  { apply lookup_lt_is_Some. simpl. rewrite length_alter. by eapply lookup_lt_Some. }
  rewrite (scheduleAppointment_booked _ (InRegistry i) _ w1 d j2 p2'); [| done.. | |done].
  2:{ simpl. by rewrite find_by_name_alter. }
  simpl. unfold no_double_booking. simpl.
  rewrite !fmap_app. intros [_ [Hnot _]]%NoDup_app.
  eapply (Hnot (getName d, dateTime)).
  - apply elem_of_app. right. apply list_elem_of_singleton.
    unfold booking_key, getName in *. simpl. by rewrite Hname.
  - by apply list_elem_of_singleton.
Qed.

Lemma caller_copy_double_books_witness :
  let w := mkWorld Registry_new [Doctor_new "John Smith"] [] in
  let alice := Patient_new "Alice Smith" "23.08.1997" in
  let bob := Patient_new "Bob Johnson" "22.06.2000" in
  ¬ no_double_booking (registry
      (state_after (scheduleAppointment "2025-01-10 09:00" (InRegistry 0) bob)
         (state_after (scheduleAppointment "2025-01-10 09:00" (InCaller 0) alice) w))).
Proof.
  refine (proj2 (caller_copy_double_books "2025-01-10 09:00" 0 0
                   (Doctor_new "John Smith") (Doctor_new "John Smith")
                   (Patient_new "Alice Smith" "23.08.1997")
                   (Patient_new "Bob Johnson" "22.06.2000")
                   (mkWorld Registry_new [Doctor_new "John Smith"] []) _ _ _ _ _ _ _));
    reflexivity.
Defined.

(** ** Cancelling *)

Lemma purge_app {A : Type} (pred : A → bool) (v v' : list A) :
  purge pred (v ++ v') = purge pred v ++ purge pred v'.
Proof. by rewrite !purge_filter, filter_app. Qed.

Lemma purge_idemp {A : Type} (pred : A → bool) (v : list A) :
  purge pred (purge pred v) = purge pred v.
Proof. apply purge_id. by intros x [_ ?]%elem_of_purge. Qed.

Lemma delete_matching_idemp (dateTime patientName doctorName : string)
    (p : AbstractPerson) :
  delete_matching dateTime patientName doctorName
    (delete_matching dateTime patientName doctorName p)
  = delete_matching dateTime patientName doctorName p.
Proof. unfold delete_matching. simpl. by rewrite purge_idemp. Qed.

Lemma delete_matching_appended (dateTime patientName doctorName : string)
    (p : AbstractPerson) :
  (dateTime, (patientName, doctorName)) ∉ appointments p →
  delete_matching dateTime patientName doctorName
    (appended (dateTime, (patientName, doctorName)) p) = p.
Proof.
  intros He. destruct p as [n dob l]. unfold delete_matching, appended. simpl in *.
  f_equal. rewrite purge_app. simpl.
  assert (matches dateTime patientName doctorName (dateTime, (patientName, doctorName))
          = true) as ->.
  { unfold matches. simpl. by rewrite !String.eqb_refl. }
  rewrite app_nil_r. apply purge_id. intros x Hx. apply matches_false. by intros ->.
Qed.

Lemma delete_matching_name (dateTime patientName doctorName : string)
    (p : AbstractPerson) :
  getName (delete_matching dateTime patientName doctorName p) = getName p.
Proof. done. Qed.

(** X8: booking and then cancelling the same triple is a round trip.  In a
    consistent registry, for one of the registry's own doctors who is free
    at [dateTime] and a patient whose name is registered,
    [scheduleAppointment] followed by [cancelAppointment] of (dateTime, the
    patient's name, the doctor's name), handed as strings of the caller's
    own, returns normally and leaves the registry exactly as it was before
    the booking. *)
Theorem schedule_then_cancel_restores (dateTime : string) (i : nat) (d : Doctor)
    (patient : Patient) (w : World) :
  consistent (registry w) →
  _doctors (registry w) !! i = Some d → isAvailable d dateTime = true →
  patientExists_loop (_patients (registry w)) (getName patient) = true →
  let w1 := state_after (scheduleAppointment dateTime (InRegistry i) patient) w in
  let cancel := cancelAppointment (Own dateTime) (Own (getName patient)) (Own (getName d)) in
  result_of cancel w1 = Returned () ∧
  registry (state_after cancel w1) = registry w.
Proof.
  intros (Hnd & Hnp & Hdoctors & Hpatients & Hglobal) Hd Hfree
    (j & p & Hj & Hp & Hname)%registered_found w1 cancel.
  set (e := (dateTime, (getName patient, getName d))).
  assert (¬ in_global_list (registry w) e) as Hnot.
  { intros [(d'' & Hd'' & Hn'' & He) _]%Hglobal. simpl in Hn''.
    apply list_elem_of_lookup in Hd'' as [k Hk].
    assert (k = i) as -> by exact (lookup_same_name _ i k d d'' Hnd Hd Hk Hn'').
    pose proof (eq_trans (eq_sym Hk) Hd) as [= ->].
    apply isAvailable_spec in Hfree. apply Hfree.
    apply list_elem_of_fmap. by exists e. }
  subst cancel w1. unfold result_of, state_after.
  rewrite (scheduleAppointment_booked _ (InRegistry i) _ w d j p Hd Hfree Hj Hp).
  fold e. set (w1 := mkWorld _ _ _).
  rewrite (cancelAppointment_registered _ _ _ w1 i j).
  2:{ simpl. rewrite find_by_name_alter by done. by apply find_by_name_NoDup. }
  2:{ simpl. by rewrite find_by_name_alter. }
  split; [done |]. simpl.
  destruct (registry w) as [cards doctors patients apps] eqn:Hr. simpl in *. f_equal.
  - rewrite list_alter_alter_eq. apply alter_id_at. intros x Hx.
    pose proof (eq_trans (eq_sym Hx) Hd) as [= ->]. simpl.
    apply delete_matching_appended. intros He. apply Hnot.
    eapply Hdoctors. exists d. split_and!; [by eapply list_elem_of_lookup_2 | done..].
  - rewrite list_alter_alter_eq. apply alter_id_at. intros x Hx.
    pose proof (eq_trans (eq_sym Hx) Hp) as [= ->]. simpl.
    apply delete_matching_appended. intros He. apply Hnot.
    eapply Hpatients. exists p. split_and!; [by eapply list_elem_of_lookup_2 | done..].
  - rewrite purge_app. simpl.
    assert (cancels dateTime (getName patient) (getName d)
              (mkAppointment dateTime (appended e d) (appended e p)) = true) as ->.
    { unfold cancels, getName in *. simpl. by rewrite Hname, !String.eqb_refl. }
    rewrite app_nil_r. apply purge_id. intros a Ha. apply cancels_false.
    intros He. apply Hnot. by exists a.
Qed.

Lemma schedule_then_cancel_restores_witness :
  registry (state_after (cancelAppointment (Own "2025-01-10 09:00")
        (Own "Alice Smith") (Own "John Smith"))
              (state_after (scheduleAppointment "2025-01-10 09:00" (InRegistry 0)
                              (Patient_new "Alice Smith" "23.08.1997")) World_new))
  = Registry_new.
Proof.
  refine (proj2 (schedule_then_cancel_restores "2025-01-10 09:00" 0
                   (Doctor_new "John Smith") (Patient_new "Alice Smith" "23.08.1997")
                   World_new consistent_new _ _ _)); reflexivity.
Defined.

(** X9: handed strings of the caller's own, [cancelAppointment] is
    idempotent on the registry: whether the names are registered or not, a
    second call with the same arguments leaves the registry as the first
    call left it. *)
Theorem cancelAppointment_idempotent (dateTime patientName doctorName : string)
    (w : World) :
  let cancel := cancelAppointment (Own dateTime) (Own patientName) (Own doctorName) in
  registry (state_after cancel (state_after cancel w)) = registry (state_after cancel w).
Proof.
  intros cancel. subst cancel. unfold state_after.
  destruct (find_by_name (_doctors (registry w)) doctorName) as [i|] eqn:Hi.
  - destruct (find_by_name (_patients (registry w)) patientName) as [j|] eqn:Hj.
    + rewrite (cancelAppointment_registered _ _ _ w i j Hi Hj). simpl.
      set (w1 := mkWorld _ _ _).
      rewrite (cancelAppointment_registered _ _ _ w1 i j);
        [| simpl; by rewrite find_by_name_alter..].
      simpl. rewrite !list_alter_alter_eq, purge_idemp. f_equal.
      * apply list_alter_ext; [| done..]. intros x _. apply delete_matching_idemp.
      * apply list_alter_ext; [| done..]. intros x _. apply delete_matching_idemp.
    + rewrite (cancelAppointment_no_patient _ _ _ w i Hi Hj). simpl.
      set (w1 := mkWorld _ _ _).
      rewrite (cancelAppointment_no_patient _ _ _ w1 i);
        [| simpl; by rewrite ?find_by_name_alter..].
      simpl. rewrite !list_alter_alter_eq, purge_idemp. f_equal.
      apply list_alter_ext; [| done..]. intros x _. apply delete_matching_idemp.
    - rewrite (cancelAppointment_no_doctor _ _ _ w Hi). simpl.
      set (w1 := mkWorld _ _ _).
      rewrite (cancelAppointment_no_doctor _ _ _ w1); [| done].
      simpl. unfold set_appointments. simpl. by rewrite purge_idemp.
Qed.

(** X10: in every registry reached from a fresh one by calls in which
    [scheduleAppointment] is handed the registry's own doctor records and
    registered patients, and [cancelAppointment] strings of the caller's
    own, [cancelAppointment] of three such strings either returns normally
    or throws having changed nothing in the registry; it never indexes past
    the end. *)
Theorem cancelAppointment_all_or_nothing (w0 w : World)
    (dateTime patientName doctorName : string) :
  registry w0 = Registry_new → reachable_by registered_call w0 w →
  let cancel := cancelAppointment (Own dateTime) (Own patientName) (Own doctorName) in
  result_of cancel w = Returned () ∨
  ((result_of cancel w = Thrown "Doctor not found." ∨
    result_of cancel w = Thrown "Patient not found.") ∧
   registry (state_after cancel w) = registry w).
Proof.
  intros Hnew Hreach cancel. subst cancel.
  assert (consistent (registry w)) as Hc.
  { apply (consistent_reachable w0 w); [| done]. rewrite Hnew. apply consistent_new. }
  destruct (find_by_name (_doctors (registry w)) doctorName) as [i|] eqn:Hi.
  - destruct (find_by_name (_patients (registry w)) patientName) as [j|] eqn:Hj.
    + left. unfold result_of.
      by rewrite (cancelAppointment_registered _ _ _ w i j Hi Hj).
    + right. split; [| by apply cancelAppointment_throw_unchanged; auto].
      right. unfold result_of. by rewrite (cancelAppointment_no_patient _ _ _ w i Hi Hj).
  - right. split; [| by apply cancelAppointment_throw_unchanged; auto].
    left. unfold result_of. by rewrite (cancelAppointment_no_doctor _ _ _ w Hi).
Qed.

Lemma cancelAppointment_all_or_nothing_witness :
  let cancel := cancelAppointment (Own "2025-01-10 09:00")
        (Own "Alice Smith") (Own "Gregory House") in
  result_of cancel World_new = Returned () ∨
  ((result_of cancel World_new = Thrown "Doctor not found." ∨
    result_of cancel World_new = Thrown "Patient not found.") ∧
   registry (state_after cancel World_new) = registry World_new).
Proof.
  apply (cancelAppointment_all_or_nothing World_new World_new).
  - reflexivity.
  - apply reach_start.
Defined.

(** X11: the names are looked up after the global list has been erased
    from.  Handed strings of the caller's own, of which [doctorName] is not
    the name of a registered doctor, [cancelAppointment] throws "Doctor not
    found." with every matching appointment already removed from the global
    list, and the doctors, the patients and the visit cards untouched. *)
Theorem cancelAppointment_unknown_doctor (dateTime patientName doctorName : string)
    (w : World) :
  doctorName ∉ getName <$> _doctors (registry w) →
  let cancel := cancelAppointment (Own dateTime) (Own patientName) (Own doctorName) in
  let r' := registry (state_after cancel w) in
  result_of cancel w = Thrown "Doctor not found." ∧
  _appointments r' =
    filter (λ a, triple a ≠ (dateTime, (patientName, doctorName)))
           (_appointments (registry w)) ∧
  _doctors r' = _doctors (registry w) ∧
  _patients r' = _patients (registry w) ∧
  _visitCards r' = _visitCards (registry w).
Proof.
  intros Hno%find_by_name_None cancel r'. subst r' cancel.
  unfold result_of, state_after. rewrite (cancelAppointment_no_doctor _ _ _ w Hno).
  simpl. split_and!; try done.
  rewrite purge_filter. apply list_filter_iff. intros a. apply cancels_false.
Qed.

Lemma cancelAppointment_unknown_doctor_witness :
  result_of (cancelAppointment (Own "2025-01-10 09:00")
        (Own "Alice Smith") (Own "Gregory House")) World_new
  = Thrown "Doctor not found.".
Proof.
  refine (proj1 (cancelAppointment_unknown_doctor "2025-01-10 09:00" "Alice Smith"
                   "Gregory House" World_new _)).
  apply (bool_decide_unpack _). vm_compute. exact I.
Defined.

(** ** Patients *)

(** X12: [addPatient(name, dob)] never throws; the patient it returns bears
    the name, and after the call [patientExists(name)] is true and
    [findPatientByName(name)] finds the very record that was returned. *)
Theorem addPatient_then_found (n age : string) (w : World) :
  let w' := state_after (addPatient n age) w in
  ∃ p j, result_of (addPatient n age) w = Returned p ∧ getName p = n ∧
         result_of (patientExists n) w' = Returned true ∧
         result_of (findPatientByName n) w' = Returned j ∧
         _patients (registry w') !! j = Some p.
Proof.
  intros w'. subst w'. unfold result_of, state_after.
  destruct (patientExists_loop (_patients (registry w)) n) eqn:E.
  - destruct (registered_found _ _ E) as (j & p & Hj & Hp & Hn).
    rewrite (addPatient_existing n age w j p Hj Hp). simpl.
    exists p, j. unfold patientExists, findPatientByName. run. simpl.
    by rewrite E, Hj.
  - rewrite (addPatient_new n age w E). simpl.
    apply patientExists_loop_false in E.
    exists (Patient_new n age), (length (_patients (registry w))).
    unfold patientExists, findPatientByName. run. simpl.
    rewrite (find_by_name_snoc _ (Patient_new n age)) by done. split_and!; try done.
    + f_equal. apply patientExists_loop_spec. rewrite fmap_app.
      apply elem_of_app. right. by apply list_elem_of_singleton.
    + by rewrite lookup_app_r, Nat.sub_diag.
Qed.

(** X13: [addPatient] keeps the patients' names pairwise distinct, keeps
    every patient already registered where it was, and touches neither the
    doctors, the appointments nor the visit cards. *)
Theorem addPatient_keeps_names_distinct (n age : string) (w : World) :
  NoDup (getName <$> _patients (registry w)) →
  let r' := registry (state_after (addPatient n age) w) in
  NoDup (getName <$> _patients r') ∧
  _patients (registry w) `prefix_of` _patients r' ∧
  _doctors r' = _doctors (registry w) ∧
  _appointments r' = _appointments (registry w) ∧
  _visitCards r' = _visitCards (registry w).
Proof.
  intros Hnd r'. subst r'. unfold state_after.
  destruct (patientExists_loop (_patients (registry w)) n) eqn:E.
  - destruct (registered_found _ _ E) as (j & p & Hj & Hp & Hn).
    by rewrite (addPatient_existing n age w j p Hj Hp).
  - rewrite (addPatient_new n age w E). simpl.
    apply patientExists_loop_false in E. split_and!; try done.
    + rewrite fmap_app. apply NoDup_app. split_and!; [done | | apply NoDup_singleton].
      by intros x Hx ->%list_elem_of_singleton.
    + by apply prefix_app_r.
Qed.

Lemma addPatient_keeps_names_distinct_witness :
  NoDup (getName <$> _patients (registry
           (state_after (addPatient "Zoe Quinn" "05.05.1995") World_new))).
Proof.
  refine (proj1 (addPatient_keeps_names_distinct "Zoe Quinn" "05.05.1995" World_new _)).
  apply (bool_decide_unpack _). vm_compute. exact I.
Defined.

(** ** Visit cards *)

Lemma getVisitCardsForPatient_run (p : Patient) (w : World) :
  getVisitCardsForPatient p w =
  (Returned (filter (λ c, getPatientName c = getName p) (_visitCards (registry w))), w).
Proof.
  unfold getVisitCardsForPatient. run. simpl. do 2 f_equal.
  rewrite (foldl_push_filter (λ c, getPatientName c = getName p) _ id).
  - by rewrite list_fmap_id.
  - intros c. apply eqb_true.
Qed.

(** X14: [addHospitalVisitCard] checks nothing: for any doctor, patient,
    dateTime and diagnosis it returns the new card and appends it, leaving
    doctors, patients and appointments alone.  Afterwards
    [getVisitCardsForPatient(q)] returns what it returned before, followed
    by the new card exactly when [q] has the name of the card's patient. *)
Theorem addHospitalVisitCard_then_listed (doctor : Doctor) (patient q : Patient)
    (dateTime diagnosis : string) (w : World) :
  let add := addHospitalVisitCard doctor patient dateTime diagnosis in
  let card := mkVisitCard doctor patient dateTime diagnosis in
  let r' := registry (state_after add w) in
  result_of add w = Returned card ∧
  _doctors r' = _doctors (registry w) ∧ _patients r' = _patients (registry w) ∧
  _appointments r' = _appointments (registry w) ∧
  returned (getVisitCardsForPatient q) (state_after add w) =
    (λ before, before ++ if decide (getName patient = getName q) then [card] else [])
      <$> returned (getVisitCardsForPatient q) w.
Proof.
  intros add card r'. subst add r'. split_and!; try done.
  unfold returned, result_of. rewrite !getVisitCardsForPatient_run. simpl.
  rewrite filter_app, filter_cons, filter_nil. by f_equal.
Qed.

(** ** The slot queries *)

(** X15: for a name no doctor bears, [getAvailableTimesForDoctor] returns
    the empty list; it does not throw. *)
Theorem getAvailableTimesForDoctor_unknown (date doctorName : string) (w : World) :
  doctorName ∉ getName <$> _doctors (registry w) →
  result_of (getAvailableTimesForDoctor date doctorName) w = Returned [].
Proof.
  intros Hno. unfold result_of. rewrite getAvailableTimesForDoctor_filter. simpl.
  f_equal. apply elem_of_nil_inv. intros [t n] [Hn Hx]%list_elem_of_filter.
  apply elem_of_free_slots in Hx as (d & slot & Hd & _ & _ & [= -> ->]).
  apply Hno. simpl in Hn. subst doctorName. apply list_elem_of_fmap. by exists d.
Qed.

Lemma getAvailableTimesForDoctor_unknown_witness :
  result_of (getAvailableTimesForDoctor "2025-01-10" "Gregory House") World_new
  = Returned [].
Proof.
  apply (getAvailableTimesForDoctor_unknown "2025-01-10" "Gregory House" World_new).
  apply (bool_decide_unpack _). vm_compute. exact I.
Defined.

Lemma elem_of_uniqueDoctors (availableTimes : list (string * string)) (acc : gset string)
    (n : string) :
  n ∈ foldl (λ uniqueDoctors (timeDoctorPair : string * string),
               {[ timeDoctorPair.2 ]} ∪ uniqueDoctors) acc availableTimes ↔
  n ∈ acc ∨ n ∈ availableTimes.*2.
Proof.
  revert acc. induction availableTimes as [|x l IH]; intros acc; simpl.
  - split; [by left | by intros [?|?%elem_of_nil]].
  - rewrite IH, elem_of_union, elem_of_singleton, elem_of_cons. tauto.
Qed.

Lemma getAvailableDoctors_run (date : string) (w : World) :
  getAvailableDoctors date w =
  (Returned (names_with_free_slot date (_doctors (registry w))), w).
Proof.
  unfold getAvailableDoctors. run. rewrite getAvailableTimes_slots. simpl.
  do 2 f_equal.
  rewrite (foldl_push_filter
             (λ d, getName d ∈ (free_slots date (_doctors (registry w))).*2) _ getName).
  - done.
  - intros d. rewrite bool_decide_eq_true, elem_of_uniqueDoctors.
    split; [by intros [?%elem_of_empty|?] | by right].
Qed.

(** X16: [getAvailableDoctors(date)] returns, in the order of the
    registry's doctor list, the names of the doctors it keeps; a doctor's
    name is kept exactly when some doctor of that name is free at some
    working-hours slot of the date. *)
Theorem getAvailableDoctors_free (date : string) (w : World) :
  ∃ kept, result_of (getAvailableDoctors date) w = Returned (getName <$> kept) ∧
          kept `sublist_of` _doctors (registry w) ∧
          ∀ d, d ∈ _doctors (registry w) →
               (d ∈ kept ↔ ∃ d', d' ∈ _doctors (registry w) ∧ getName d' = getName d ∧
                                 has_free_slot date d').
Proof.
  exists (filter (λ d, getName d ∈ (free_slots date (_doctors (registry w))).*2)
                 (_doctors (registry w))).
  unfold result_of. rewrite getAvailableDoctors_run. split_and!; [done | |].
  - apply sublist_filter.
  - intros d Hd. rewrite list_elem_of_filter, list_elem_of_fmap. split.
    + intros [([t n] & Hn & Hx) _]. simpl in Hn. subst n.
      apply elem_of_free_slots in Hx as (d' & slot & Hd' & Hslot & Hfree & [= -> Hn]).
      exists d'. split_and!; [done | done |]. by exists slot.
    + intros (d' & Hd' & Hn & slot & Hslot & Hfree). split; [| done].
      exists (slot_of date slot, name d'). split; [done |].
      apply elem_of_free_slots. by exists d', slot.
Qed.

Lemma bind_sublist_pointwise {A B : Type} (f g : A → list B) (l : list A) :
  (∀ x, f x `sublist_of` g x) → (l ≫= f) `sublist_of` (l ≫= g).
Proof.
  intros Hfg. induction l as [|x l IH]; [done |].
  rewrite !bind_cons. by apply sublist_app.
Qed.

Lemma bind_singleton_fmap {A B : Type} (f : A → B) (l : list A) :
  l ≫= (λ x, [f x]) = f <$> l.
Proof. induction l as [|x l IH]; [done |]. rewrite bind_cons, IH. done. Qed.

Lemma NoDup_fmap_inj_on {A B : Type} (f : A → B) (l : list A) (x y : A) :
  NoDup (f <$> l) → x ∈ l → y ∈ l → f x = f y → x = y.
Proof.
  induction l as [|z l IH]; simpl; [by intros _ ?%elem_of_nil |].
  intros [Hz Hl]%NoDup_cons [->|Hx]%elem_of_cons [->|Hy]%elem_of_cons Hf; auto.
  - exfalso. apply Hz. rewrite Hf. by apply list_elem_of_fmap_2.
  - exfalso. apply Hz. rewrite <- Hf. by apply list_elem_of_fmap_2.
Qed.

Lemma slot_of_inj (date : string) (slot slot' : nat * nat) :
  slot ∈ working_slots → slot' ∈ working_slots →
  slot_of date slot = slot_of date slot' → slot = slot'.
Proof.
  intros Hs Hs' Heq. unfold slot_of in Heq.
  do 2 apply append_inv_head in Heq.
  apply (NoDup_fmap_inj_on HHMM working_slots); [| done..].
  apply (bool_decide_unpack _). by vm_compute.
Qed.

Lemma free_slots_sublist (date : string) (doctors : list Doctor) :
  free_slots date doctors `sublist_of` all_slots date doctors.
Proof.
  unfold free_slots, all_slots. apply bind_sublist_pointwise. intros d.
  apply bind_sublist_pointwise. intros slot.
  destruct (decide (booked_at d (slot_of date slot))); [apply sublist_nil_l | done].
Qed.

Lemma all_slots_length (date : string) (doctors : list Doctor) :
  length (all_slots date doctors) = 20 * length doctors.
Proof.
  unfold all_slots. induction doctors as [|d ds IH]; [done |].
  rewrite bind_cons, length_app, IH, bind_singleton_fmap, length_fmap. simpl. lia.
Qed.

Lemma all_slots_NoDup (date : string) (doctors : list Doctor) :
  NoDup (getName <$> doctors) → NoDup (all_slots date doctors).
Proof.
  unfold all_slots. induction doctors as [|d ds IH]; [intros _; apply NoDup_nil_2 |].
  rewrite fmap_cons. intros [Hd Hds]%NoDup_cons. rewrite bind_cons. apply NoDup_app. split_and!.
  - rewrite bind_singleton_fmap. apply NoDup_fmap_2_strong.
    + intros s s' Hs Hs' [= Heq]. by eapply slot_of_inj.
    + apply (bool_decide_unpack _). by vm_compute.
  - intros [t n] (slot & [= -> ->]%list_elem_of_singleton & _)%list_elem_of_bind
      (d' & (slot' & [= _ Hn]%list_elem_of_singleton & _)%list_elem_of_bind & Hd')
      %list_elem_of_bind.
    apply Hd. apply list_elem_of_fmap. exists d'. by split.
  - by apply IH.
Qed.

Lemma free_slots_of_name (date doctorName : string) (doctors : list Doctor) :
  NoDup (getName <$> doctors) →
  length (filter (λ pair, pair.2 = doctorName) (free_slots date doctors)) ≤ 20.
Proof.
  assert (∀ ds, doctorName ∉ getName <$> ds →
            filter (λ pair : string * string, pair.2 = doctorName) (free_slots date ds) = [])
    as Hnone.
  { intros ds Hno. apply elem_of_nil_inv. intros x [Hn Hx]%list_elem_of_filter.
    apply elem_of_free_slots in Hx as (d & slot & Hd & _ & _ & ->).
    apply Hno. apply list_elem_of_fmap. by exists d. }
  induction doctors as [|d ds IH]; [simpl; lia |].
  rewrite fmap_cons. intros [Hd Hds]%NoDup_cons.
  assert (free_slots date (d :: ds) = free_slots date [d] ++ free_slots date ds) as ->.
  { unfold free_slots. rewrite !bind_cons. f_equal. symmetry. apply app_nil_r. }
  rewrite filter_app, length_app.
  destruct (decide (getName d = doctorName)) as [<-|Hne].
  - rewrite (Hnone ds Hd). cbn [length]. rewrite Nat.add_0_r.
    etrans; [apply length_filter |].
    etrans; [apply sublist_length, free_slots_sublist |].
    by rewrite all_slots_length.
  - rewrite (Hnone [d]); [cbn [length Nat.add]; by apply IH |].
    rewrite fmap_cons, fmap_nil. by intros ->%list_elem_of_singleton.
Qed.

(** X17: where the doctors' names are pairwise distinct,
    [getAvailableTimes(date)] lists no (dateTime, doctorName) pair twice,
    and it lists at most 20 pairs for each doctor name, so at most 20 times
    the number of doctors in all. *)
Theorem getAvailableTimes_no_duplicates (date : string) (w : World) :
  NoDup (getName <$> _doctors (registry w)) →
  ∃ availableTimes,
    result_of (getAvailableTimes date) w = Returned availableTimes ∧
    NoDup availableTimes ∧
    (∀ doctorName,
       length (filter (λ pair, pair.2 = doctorName) availableTimes) ≤ 20) ∧
    length availableTimes ≤ 20 * length (_doctors (registry w)).
Proof.
  intros Hnd. exists (free_slots date (_doctors (registry w))).
  unfold result_of. rewrite getAvailableTimes_slots. split_and!; [done | | |].
  - eapply (sublist_NoDup _ (all_slots date (_doctors (registry w))));
      [by apply all_slots_NoDup | apply free_slots_sublist].
  - intros doctorName. by apply free_slots_of_name.
  - rewrite <- (all_slots_length date). apply sublist_length, free_slots_sublist.
Qed.

Lemma getAvailableTimes_no_duplicates_witness :
  ∃ availableTimes,
    result_of (getAvailableTimes "2025-01-10") World_new = Returned availableTimes ∧
    NoDup availableTimes ∧
    (∀ doctorName,
       length (filter (λ pair, pair.2 = doctorName) availableTimes) ≤ 20) ∧
    length availableTimes ≤ 20 * 8.
Proof.
  apply (getAvailableTimes_no_duplicates "2025-01-10" World_new).
  apply (bool_decide_unpack _). vm_compute. exact I.
Defined.

(** X18: what [getAvailableTimesForDoctor] offers, [scheduleAppointment]
    accepts.  In a registry reached from a fresh one, for a dateTime listed
    for the name of one of the registry's own doctors and a patient whose
    name is registered, [scheduleAppointment] with that doctor returns
    normally and appends exactly one appointment, for that dateTime, patient
    and doctor, to the global list. *)
Theorem offered_time_is_bookable (w0 w : World) (date t : string) (i : nat) (d : Doctor)
    (patient : Patient) :
  registry w0 = Registry_new → reachable_by any_call w0 w →
  _doctors (registry w) !! i = Some d →
  t ∈ available_times_for date (getName d) w →
  patientExists_loop (_patients (registry w)) (getName patient) = true →
  let book := scheduleAppointment t (InRegistry i) patient in
  result_of book w = Returned () ∧
  ∃ a, _appointments (registry (state_after book w)) = _appointments (registry w) ++ [a] ∧
       triple a = (t, (getName patient, getName d)).
Proof.
  intros Hnew Hreach Hd Ht (j & p & Hj & Hp & Hname)%registered_found book. subst book.
  assert (NoDup (getName <$> _doctors (registry w))) as Hnd.
  { apply default_staff_NoDup. by eapply default_staff_reachable. }
  apply elem_of_available_times_for in Ht as (d' & slot & Hd' & _ & Hfree & -> & Hn).
  apply list_elem_of_lookup in Hd' as [k Hk].
  assert (k = i) as -> by exact (lookup_same_name _ i k d d' Hnd Hd Hk Hn).
  pose proof (eq_trans (eq_sym Hk) Hd) as [= ->].
  apply isAvailable_spec in Hfree.
  unfold result_of, state_after.
  rewrite (scheduleAppointment_booked _ (InRegistry i) _ w d j p Hd Hfree Hj Hp).
  split; [done |]. eexists. split; [done |].
  unfold triple, getName in *. simpl. by rewrite Hname.
Qed.

Lemma offered_time_is_bookable_witness :
  result_of (scheduleAppointment "2025-01-10 08:00" (InRegistry 0)
               (Patient_new "Alice Smith" "23.08.1997")) World_new = Returned ().
Proof.
  refine (proj1 (offered_time_is_bookable World_new World_new "2025-01-10"
                   "2025-01-10 08:00" 0 (Doctor_new "John Smith")
                   (Patient_new "Alice Smith" "23.08.1997") _ _ _ _ _)).
  - reflexivity.
  - apply reach_start.
  - reflexivity.
  - vm_compute. apply list_elem_of_here.
  - reflexivity.
Defined.

(** ** The default schedule, on any registry *)

Lemma generateDefaultAppointments_names (today_date tomorrow_date : string) (w : World) :
  let seed := generateDefaultAppointments today_date tomorrow_date in
  result_of seed w = Returned () ∧
  getName <$> _doctors (registry (state_after seed w)) = getName <$> _doctors (registry w) ∧
  getName <$> _patients (registry (state_after seed w)) = getName <$> _patients (registry w).
Proof.
  intros seed. subst seed.
  destruct (generateDefaultAppointments_keeps
              (λ r, getName <$> _doctors r = getName <$> _doctors (registry w) ∧
                    getName <$> _patients r = getName <$> _patients (registry w)))
    with (today_date := today_date) (tomorrow_date := tomorrow_date) (w := w)
    as (Hrun & Hds & Hps); [| done | done].
  intros r r' dateTime i j d p a e [Hds Hps] _ _ Hds' Hps' _ _.
  rewrite Hds', Hps'. by rewrite !names_alter.
Qed.

(** X19: [generateDefaultAppointments] returns normally on every registry,
    whatever the sizes of the doctor and patient vectors: it never indexes
    [_doctors], [_patients] or the list of default times past the end, never
    throws, and adds, removes or renames no doctor and no patient. *)
Theorem generateDefaultAppointments_safe (today_date tomorrow_date : string) (w : World) :
  let seed := generateDefaultAppointments today_date tomorrow_date in
  result_of seed w = Returned () ∧
  getName <$> _doctors (registry (state_after seed w)) = getName <$> _doctors (registry w) ∧
  getName <$> _patients (registry (state_after seed w)) = getName <$> _patients (registry w).
Proof. apply generateDefaultAppointments_names. Qed.

(** ** What no sequence of calls changes *)

(** X20: no public operation adds, removes, reorders or renames a doctor:
    in every registry reached from a fresh one, by any calls with any
    arguments ([cancelAppointment] handed strings of the registry's own
    lists included), the doctors bear the eight names they were constructed
    with. *)
Theorem doctors_are_fixed (w0 w : World) :
  registry w0 = Registry_new → reachable_by any_call w0 w →
  getName <$> _doctors (registry w) =
  ["John Smith"; "Emily Johnson"; "David Brown"; "Sarah Lee"; "Michael Wilson";
   "Alexandra Garcia"; "Matthew Taylor"; "Olivia Martinez"].
Proof. intros Hnew Hreach. by apply (default_staff_reachable w0 w). Qed.

Lemma doctors_are_fixed_witness :
  length (_doctors (registry (state_after
    (cancelAppointment (Own "2025-01-10 09:00")
          (Own "Alice Smith") (Own "John Smith")) World_new))) = 8.
Proof.
  rewrite <- (length_fmap getName).
  rewrite (doctors_are_fixed World_new
             (state_after (cancelAppointment (Own "2025-01-10 09:00")
                   (Own "Alice Smith") (Own "John Smith"))
                World_new)).
  - reflexivity.
  - reflexivity.
  - eapply (reach_step _ _ World_new _
              (CancelAppointment (Own "2025-01-10 09:00") (Own "Alice Smith") (Own "John Smith"))).
    + apply reach_start.
    + exact I.
    + split; [| reflexivity]. intros H. vm_compute in H. discriminate H.
Defined.

Lemma scheduleAppointment_patient_names (dateTime : string) (ref : DoctorRef)
    (patient : Patient) (w : World) :
  getName <$> _patients (registry (state_after (scheduleAppointment dateTime ref patient) w))
  = getName <$> _patients (registry w).
Proof.
  unfold state_after.
  destruct (doctor_of w ref) as [d|] eqn:Hd.
  2:{ unfold scheduleAppointment. run. by rewrite (read_doctor_dangling ref w). }
  destruct (isAvailable d dateTime) eqn:Hfree.
  2:{ by rewrite (scheduleAppointment_refused _ ref _ w d Hd Hfree). }
  destruct (find_by_name (_patients (registry w)) (getName patient)) as [j|] eqn:Hj.
  - destruct (find_by_name_Some _ _ _ Hj) as (p & Hp & _).
    rewrite (scheduleAppointment_booked _ ref _ w d j p Hd Hfree Hj Hp). simpl.
    by rewrite names_alter.
  - rewrite (scheduleAppointment_patient_missing _ ref _ w d Hd Hfree Hj).
    by destruct ref.
Qed.

Lemma patients_kept_names (r r' : Registry) :
  getName <$> _patients r' = getName <$> _patients r → patients_kept r → patients_kept r'.
Proof. unfold patients_kept. by intros ->. Qed.

Lemma patients_kept_step (c : Call) (w w' : World) :
  step c w w' → patients_kept (registry w) → patients_kept (registry w').
Proof.
  intros Hstep Hk. pose proof (step_frame c w w' Hstep) as Hframe.
  destruct c as [today tomorrow|dateTime ref patient|dateTime pn dn|n age| | | | | |];
    try (destruct Hframe as (_ & Hps & _); apply (patients_kept_names (registry w));
         [by rewrite Hps | done]).
  - destruct Hstep as [_ <-]. apply (patients_kept_names (registry w)); [| done].
    apply generateDefaultAppointments_names.
  - destruct Hstep as [_ <-]. apply (patients_kept_names (registry w)); [| done].
    apply scheduleAppointment_patient_names.
  - destruct Hstep as [_ <-]. apply (patients_kept_names (registry w)); [| done].
    apply cancelAppointment_same_people.
  - destruct Hstep as [_ <-]. simpl. rewrite state_after_forget.
    destruct Hk as [Hnd Hpre]. unfold state_after.
    destruct (patientExists_loop (_patients (registry w)) n) eqn:E.
    + destruct (registered_found _ _ E) as (j & p & Hj & Hp & Hn).
      by rewrite (addPatient_existing n age w j p Hj Hp).
    + rewrite (addPatient_new n age w E). unfold patients_kept. simpl.
      apply patientExists_loop_false in E. split.
      * rewrite fmap_app. apply NoDup_app. split_and!; [done | | apply NoDup_singleton].
        by intros x Hx ->%list_elem_of_singleton.
      * rewrite fmap_app. by apply prefix_app_r.
Qed.

(** X21: no public operation removes, reorders or renames a patient, and
    none registers a name twice: in every registry reached from a fresh one,
    by any calls with any arguments ([cancelAppointment] handed strings of
    the registry's own lists included), the patients' names are pairwise
    distinct and begin with the eight names the registry was constructed
    with. *)
Theorem patients_stay_registered (w0 w : World) :
  registry w0 = Registry_new → reachable_by any_call w0 w →
  patients_kept (registry w).
Proof.
  intros Hnew Hreach. induction Hreach as [|w w' c _ IH _ Hstep].
  - rewrite Hnew. split; [| done]. apply (bool_decide_unpack _). by vm_compute.
  - by eapply patients_kept_step.
Qed.

Lemma patients_stay_registered_witness :
  patients_kept (registry (state_after (addPatient "Zoe Quinn" "05.05.1995") World_new)).
Proof.
  apply (patients_stay_registered World_new).
  - reflexivity.
  - eapply (reach_step _ _ World_new _ (AddPatient "Zoe Quinn" "05.05.1995")).
    + apply reach_start.
    + exact I.
    + split; [| reflexivity]. intros H. vm_compute in H. discriminate H.
Defined.

(** ** The menu *)

Lemma getAppointmentFromUser_valid (choice : Z) (w : World) (a : Appointment) :
  (1 ≤ choice)%Z → _appointments (registry w) !! Z.to_nat (choice - 1) = Some a →
  getAppointmentFromUser choice w = (Returned a, w).
Proof.
  intros Hpos Ha. pose proof (lookup_lt_Some _ _ _ Ha) as Hlt.
  unfold getAppointmentFromUser, showAppointments, getValidChoice, getByIndex. run. simpl.
  rewrite bool_decide_false by lia. run.
  rewrite bool_decide_true by lia. by rewrite Ha.
Qed.

Lemma getAppointmentFromUser_invalid (choice : Z) (w : World) :
  ¬ (1 ≤ choice ≤ Z.of_nat (length (_appointments (registry w))))%Z →
  getAppointmentFromUser choice w =
  (Thrown "Invalid index.",
   mkWorld (registry w) (locals w)
           (console w ++ [newline +:+ " Invalid choice. Please try again."])).
Proof.
  intros Hout.
  unfold getAppointmentFromUser, showAppointments, getValidChoice, getByIndex. run. simpl.
  rewrite bool_decide_true by lia. run. simpl. done.
Qed.

(** X22: [getAppointmentFromUser] does not test the -1 that
    [getValidChoice] returns.  For a choice outside 1..size,
    [cancelAppointmentMenu()] and [addVisitCardMenu] print the
    invalid-choice line and then throw "Invalid index." out of [getByIndex];
    the registry is left as it was, and no card is added. *)
Theorem menu_invalid_choice_throws (choice : Z) (diagnosis : string) (w : World) :
  ¬ (1 ≤ choice ≤ Z.of_nat (length (_appointments (registry w))))%Z →
  let after := mkWorld (registry w) (locals w)
                 (console w ++ [newline +:+ " Invalid choice. Please try again."]) in
  cancelAppointmentMenu choice w = (Thrown "Invalid index.", after) ∧
  addVisitCardMenu choice diagnosis w = (Thrown "Invalid index.", after).
Proof.
  intros Hout after. split.
  - unfold cancelAppointmentMenu. run. by rewrite getAppointmentFromUser_invalid.
  - unfold addVisitCardMenu, showAppointments, getValidChoice, getByIndex. run. simpl.
    rewrite bool_decide_true by lia. run. simpl. done.
Qed.

Lemma menu_invalid_choice_throws_witness :
  result_of (cancelAppointmentMenu 1) World_new = Thrown "Invalid index.".
Proof.
  assert (¬ (1 ≤ 1 ≤ Z.of_nat (length (_appointments (registry World_new))))%Z) as H.
  { simpl. lia. }
  unfold result_of.
  rewrite (proj1 (menu_invalid_choice_throws 1 EmptyString World_new H)).
  reflexivity.
Defined.

Lemma consistent_names_registered (r : Registry) (e : AppointmentRef) :
  consistent r → in_global_list r e →
  ∃ i j, find_by_name (_doctors r) e.2.2 = Some i ∧ find_by_name (_patients r) e.2.1 = Some j.
Proof.
  intros (_ & _ & _ & _ & Hglobal) [Hd Hp]%Hglobal.
  apply holds_name, find_by_name_elem_of in Hd as [i Hi].
  apply holds_name, find_by_name_elem_of in Hp as [j Hj]. by exists i, j.
Qed.

Lemma cancelled_gone (dateTime patientName doctorName : string) (w : World) :
  consistent (registry w) →
  gone (dateTime, (patientName, doctorName))
       (registry (state_after (cancelAppointment (Own dateTime)
             (Own patientName) (Own doctorName)) w)).
Proof.
  intros Hc. pose proof (consistent_cancel dateTime patientName doctorName w Hc)
    as (_ & _ & Hdoctors & Hpatients & _).
  destruct (cancelAppointment_cases dateTime patientName doctorName w) as [Happs _].
  assert (¬ in_global_list (registry (state_after
            (cancelAppointment (Own dateTime) (Own patientName) (Own doctorName)) w))
            (dateTime, (patientName, doctorName))) as Hnot.
  { intros H.
    apply (in_global_list_cancel (registry w) _ dateTime patientName doctorName _ Happs)
      in H as [_ Hne]. done. }
  split_and!; [done | |].
  - intros H. by apply Hdoctors in H as [_ H].
  - intros H. by apply Hpatients in H as [_ H].
Qed.

(** X23: in a registry reached from a fresh one by calls in which
    [scheduleAppointment] is handed the registry's own doctors and
    registered patients, and [cancelAppointment] strings of the caller's
    own, [cancelAppointmentMenu()] with a choice inside
    1..size returns normally; the chosen appointment's triple is then in
    none of the three lists, and the global list has lost exactly the
    appointments with that triple. *)
Theorem cancelAppointmentMenu_cancels_choice (w0 w : World) (choice : Z) (a : Appointment) :
  registry w0 = Registry_new → reachable_by registered_call w0 w →
  (1 ≤ choice)%Z → _appointments (registry w) !! Z.to_nat (choice - 1) = Some a →
  let r' := registry (state_after (cancelAppointmentMenu choice) w) in
  result_of (cancelAppointmentMenu choice) w = Returned () ∧
  gone (triple a) r' ∧
  _appointments r' = filter (λ b, triple b ≠ triple a) (_appointments (registry w)).
Proof.
  intros Hnew Hreach Hpos Ha r'. subst r'.
  assert (consistent (registry w)) as Hc.
  { apply (consistent_reachable w0 w); [| done]. rewrite Hnew. apply consistent_new. }
  destruct (consistent_names_registered (registry w) (triple a) Hc) as (i & j & Hi & Hj).
  { exists a. split; [by eapply list_elem_of_lookup_2 | done]. }
  assert (cancelAppointmentMenu choice w =
          cancelAppointment (Own (_dateTime a))
                (Own (getName (_patient a))) (Own (getName (_doctor a))) w)
    as Hrun.
  { unfold cancelAppointmentMenu, findDoctorByName. run.
    rewrite (getAppointmentFromUser_valid choice w a Hpos Ha). simpl in *. by rewrite Hi. }
  unfold result_of, state_after. rewrite Hrun. split_and!.
  - by rewrite (cancelAppointment_registered _ _ _ w i j Hi Hj).
  - by apply cancelled_gone.
  - rewrite (cancelAppointment_registered _ _ _ w i j Hi Hj). simpl.
    rewrite purge_filter. apply list_filter_iff. intros b. apply cancels_false.
Qed.

Lemma cancelAppointmentMenu_cancels_choice_witness :
  let w := state_after (scheduleAppointment "2025-01-10 09:00" (InRegistry 0)
                          (Patient_new "Alice Smith" "23.08.1997")) World_new in
  _appointments (registry (state_after (cancelAppointmentMenu 1) w)) = [].
Proof.
  intros w.
  destruct (cancelAppointmentMenu_cancels_choice World_new w 1
              (mkAppointment "2025-01-10 09:00"
                 (appended ("2025-01-10 09:00", ("Alice Smith", "John Smith"))
                    (Doctor_new "John Smith"))
                 (appended ("2025-01-10 09:00", ("Alice Smith", "John Smith"))
                    (Patient_new "Alice Smith" "23.08.1997")))) as (_ & _ & ->).
  - reflexivity.
  - eapply (reach_step _ _ World_new _
              (ScheduleAppointment "2025-01-10 09:00" (InRegistry 0)
                 (Patient_new "Alice Smith" "23.08.1997"))).
    + apply reach_start.
    + reflexivity.
    + split; [| reflexivity]. intros H. vm_compute in H. discriminate H.
  - lia.
  - reflexivity.
  - reflexivity.
Defined.

(** X24: [cancelAppointmentMenu] for a patient indexes the patient's list
    with the choice as it was read, unchecked: for a registered patient who
    has appointments, a choice outside 1..size is undefined behaviour (an
    [operator[]] past the end), reached with the registry unchanged. *)
Theorem cancelAppointmentMenu_for_unchecked (patient : Patient) (choice : Z) (w : World)
    (j : nat) (p : Patient) :
  find_by_name (_patients (registry w)) (getName patient) = Some j →
  _patients (registry w) !! j = Some p →
  appointments p ≠ [] →
  ¬ (1 ≤ choice ≤ Z.of_nat (length (appointments p)))%Z →
  cancelAppointmentMenu_for patient choice w = (Undefined, w).
Proof.
  intros Hj Hp Hsome Hout.
  assert (length (appointments p) ≠ 0) as Hlen by (by destruct (appointments p)).
  unfold cancelAppointmentMenu_for, findPatientByName, patient_at, Patient_printDetails,
    at_index, getAppointments. run. simpl. rewrite Hj. simpl. rewrite Hp. simpl.
  rewrite !bool_decide_false by done. run.
  case_bool_decide as H0; [| done].
  rewrite (lookup_ge_None_2 (appointments p)) by lia. done.
Qed.

Lemma cancelAppointmentMenu_for_unchecked_witness :
  let alice := Patient_new "Alice Smith" "23.08.1997" in
  let w := state_after (scheduleAppointment "2025-01-10 09:00" (InRegistry 0) alice)
             World_new in
  result_of (cancelAppointmentMenu_for alice 2) w = Undefined.
Proof.
  intros alice w. unfold result_of.
  rewrite (cancelAppointmentMenu_for_unchecked alice 2 w 0
             (appended ("2025-01-10 09:00", ("Alice Smith", "John Smith")) alice)).
  - reflexivity.
  - reflexivity.
  - reflexivity.
  - simpl. discriminate.
  - simpl. lia.
Defined.

(** X25: in a registry reached from a fresh one by calls in which
    [scheduleAppointment] is handed the registry's own doctors and
    registered patients, and [cancelAppointment] strings of the caller's
    own, [cancelAppointmentMenu] for a registered patient
    with a choice inside 1..size of the patient's list returns normally, and
    the chosen entry is then in none of the three lists. *)
Theorem cancelAppointmentMenu_for_cancels_choice (w0 w : World) (patient : Patient)
    (choice : Z) (j : nat) (p : Patient) (e : AppointmentRef) :
  registry w0 = Registry_new → reachable_by registered_call w0 w →
  find_by_name (_patients (registry w)) (getName patient) = Some j →
  _patients (registry w) !! j = Some p →
  (1 ≤ choice)%Z → appointments p !! Z.to_nat (choice - 1) = Some e →
  result_of (cancelAppointmentMenu_for patient choice) w = Returned () ∧
  gone e (registry (state_after (cancelAppointmentMenu_for patient choice) w)).
Proof.
  intros Hnew Hreach Hj Hp Hpos He.
  assert (consistent (registry w)) as Hc.
  { apply (consistent_reachable w0 w); [| done]. rewrite Hnew. apply consistent_new. }
  destruct (find_by_name_Some _ _ _ Hj) as (p' & Hp' & Hname & _).
  pose proof (eq_trans (eq_sym Hp') Hp) as [= ->].
  pose proof (list_elem_of_lookup_2 _ _ _ He) as Hin.
  pose proof (list_elem_of_lookup_2 _ _ _ Hp) as Hpin.
  pose proof Hc as (_ & _ & _ & Hpatients & _).
  destruct (Hpatients (getName p) e) as [Hpn Hglobal]; [by exists p |].
  destruct (consistent_names_registered (registry w) e Hc Hglobal) as (i & j' & Hi & _).
  assert (length (appointments p) ≠ 0) as Hlen.
  { apply lookup_lt_Some in He. lia. }
  assert (cancelAppointmentMenu_for patient choice w =
          cancelAppointment (Own e.1) (Own (getName patient)) (Own e.2.2) w) as Hrun.
  { unfold cancelAppointmentMenu_for, findPatientByName, patient_at, Patient_printDetails,
      at_index, getAppointments. run. simpl. rewrite Hj. simpl. rewrite Hp. simpl.
    rewrite !bool_decide_false by done. run.
    rewrite bool_decide_true by lia. by rewrite He. }
  assert (e = (e.1, (getName patient, e.2.2))) as Heq.
  { destruct e as [dt [pn dn]]. simpl in *. by rewrite <- Hname, <- Hpn. }
  unfold result_of, state_after. rewrite Hrun. split.
  - by rewrite (cancelAppointment_registered _ _ _ w i j Hi Hj).
  - pose proof (cancelled_gone e.1 (getName patient) e.2.2 w Hc) as Hgone.
    unfold state_after in Hgone. by rewrite <- Heq in Hgone.
Qed.

Lemma cancelAppointmentMenu_for_cancels_choice_witness :
  let alice := Patient_new "Alice Smith" "23.08.1997" in
  let w := state_after (scheduleAppointment "2025-01-10 09:00" (InRegistry 0) alice)
             World_new in
  result_of (cancelAppointmentMenu_for alice 1) w = Returned ().
Proof.
  intros alice w.
  refine (proj1 (cancelAppointmentMenu_for_cancels_choice World_new w alice 1 0
                   (appended ("2025-01-10 09:00", ("Alice Smith", "John Smith")) alice)
                   ("2025-01-10 09:00", ("Alice Smith", "John Smith")) _ _ _ _ _ _)).
  - reflexivity.
  - eapply (reach_step _ _ World_new _
              (ScheduleAppointment "2025-01-10 09:00" (InRegistry 0) alice)).
    + apply reach_start.
    + reflexivity.
    + split; [| reflexivity]. intros H. vm_compute in H. discriminate H.
  - reflexivity.
  - reflexivity.
  - lia.
  - reflexivity.
Defined.

(** X26: [addVisitCardMenu] with a choice inside 1..size returns normally
    and appends one card, made of the chosen appointment's own copies of the
    doctor and the patient, its dateTime and the diagnosis; afterwards
    [getVisitCardsForPatient] of the appointment's patient ends with that
    card. *)
Theorem addVisitCardMenu_adds_card (choice : Z) (diagnosis : string) (w : World)
    (a : Appointment) :
  (1 ≤ choice)%Z → _appointments (registry w) !! Z.to_nat (choice - 1) = Some a →
  let card := mkVisitCard (_doctor a) (_patient a) (_dateTime a) diagnosis in
  let w' := state_after (addVisitCardMenu choice diagnosis) w in
  result_of (addVisitCardMenu choice diagnosis) w = Returned () ∧
  _visitCards (registry w') = _visitCards (registry w) ++ [card] ∧
  ∃ earlier, result_of (getVisitCardsForPatient (_patient a)) w' =
             Returned (earlier ++ [card]).
Proof.
  intros Hpos Ha card w'. subst w'. pose proof (lookup_lt_Some _ _ _ Ha) as Hlt.
  assert (addVisitCardMenu choice diagnosis w =
          (Returned (),
           mkWorld (set_visitCards (_visitCards (registry w) ++ [card]) (registry w))
                   (locals w)
                   (console w ++ ["Hospital visit card is added for patient "
                                  +:+ getName (_patient a)]))) as Hrun.
  { unfold addVisitCardMenu, showAppointments, getValidChoice, getByIndex,
      addHospitalVisitCard. run. simpl.
    rewrite bool_decide_false by lia. run.
    rewrite bool_decide_true by lia. by rewrite Ha. }
  unfold result_of, state_after. rewrite Hrun. split_and!; [done | done |].
  rewrite getVisitCardsForPatient_run. simpl.
  rewrite filter_app, filter_cons, decide_True, filter_nil by done. by eexists.
Qed.

Lemma addVisitCardMenu_adds_card_witness :
  let w := state_after (scheduleAppointment "2025-01-10 09:00" (InRegistry 0)
                          (Patient_new "Alice Smith" "23.08.1997")) World_new in
  result_of (addVisitCardMenu 1 "Influenza") w = Returned ().
Proof.
  intros w.
  refine (proj1 (addVisitCardMenu_adds_card 1 "Influenza" w
                   (mkAppointment "2025-01-10 09:00"
                      (appended ("2025-01-10 09:00", ("Alice Smith", "John Smith"))
                         (Doctor_new "John Smith"))
                      (appended ("2025-01-10 09:00", ("Alice Smith", "John Smith"))
                         (Patient_new "Alice Smith" "23.08.1997"))) _ _)).
  - lia.
  - reflexivity.
Defined.

(** ** helpers.h *)

(** X27: for months in 1..12 and days in 1..31, both in the date entered
    and in today's, [isValidDate] returns true exactly when the date
    entered, read as the number YYYYMMDD, is not below today's; it prints
    its one line exactly when it returns false, and changes nothing else. *)
Theorem isValidDate_not_before_today (year month day tm_year tm_mon tm_mday : Z)
    (w : World) :
  (1 ≤ month ≤ 12 ∧ 1 ≤ day ≤ 31)%Z →
  (0 ≤ tm_mon ≤ 11 ∧ 1 ≤ tm_mday ≤ 31)%Z →
  let check := isValidDate year month day tm_year tm_mon tm_mday in
  let accepted := bool_decide (10000 * (tm_year + 1900) + 100 * (tm_mon + 1) + tm_mday
                               ≤ 10000 * year + 100 * month + day)%Z in
  result_of check w = Returned accepted ∧
  registry (state_after check w) = registry w ∧
  console (state_after check w) =
    console w ++ if accepted then []
                 else ["Invalid date. Date must be today or in the future."].
Proof.
  intros Hdate Htoday check accepted. subst check accepted.
  unfold result_of, state_after, isValidDate.
  case_bool_decide as Hbefore; run; simpl.
  - rewrite bool_decide_false by lia. done.
  - rewrite bool_decide_true by lia. by rewrite app_nil_r.
Qed.

Lemma isValidDate_not_before_today_witness :
  result_of (isValidDate 2025 1 10 125 0 10) World_new = Returned true.
Proof.
  refine (proj1 (isValidDate_not_before_today 2025 1 10 125 0 10 World_new _ _)); lia.
Defined.



(** ** Strings of the registry's own lists

    What [deleteAppointment] and [cancelAppointment] do where the strings
    they are handed are strings of the vector they rewrite. *)

Lemma matches_refl (e : AppointmentRef) : matches e.1 e.2.1 e.2.2 e = true.
Proof. unfold matches. by rewrite !String.eqb_refl. Qed.

Lemma matches_other (e x : AppointmentRef) : matches e.1 e.2.1 e.2.2 x = false ↔ x ≠ e.
Proof. rewrite matches_false. by destruct e as [dt [pn dn]]. Qed.

Lemma lambda_of_first_entry (v : list AppointmentRef) (e x : AppointmentRef) :
  v !! 0 = Some e →
  lambda entry_field (Inside 0 DateTime) (Inside 0 PatientName) (Inside 0 DoctorName) v x
  = Some (matches e.1 e.2.1 e.2.2 x).
Proof.
  intros He. unfold lambda, deref, matches. rewrite He. simpl.
  by destruct (String.eqb x.1 e.1), (String.eqb x.2.1 e.2.1).
Qed.

Lemma remove_if_loop_skip (e : AppointmentRef) (n m : nat) (v : list AppointmentRef)
    (result first : nat) :
  v !! 0 = Some e → (∀ k, k < n → v !! (first + k) = Some e) →
  remove_if_loop entry_field moved_from_entry (Inside 0 DateTime) (Inside 0 PatientName)
    (Inside 0 DoctorName) (n + m) v result first
  = remove_if_loop entry_field moved_from_entry (Inside 0 DateTime) (Inside 0 PatientName)
      (Inside 0 DoctorName) m v result (first + n).
Proof.
  intros He. revert first. induction n as [|n IH]; intros first Hcopies.
  - by rewrite Nat.add_0_r.
  - cbn [Nat.add remove_if_loop].
    pose proof (Hcopies 0 ltac:(lia)) as H0. rewrite Nat.add_0_r in H0. rewrite H0.
    cbn [mbind option_bind]. rewrite (lambda_of_first_entry v e e He), matches_refl.
    cbn [mbind option_bind]. rewrite IH.
    + f_equal. lia.
    + intros k Hk. rewrite <- (Hcopies (S k)) by lia. f_equal. lia.
Qed.

(** X29: handed the three strings of the first entry of the person's own
    list, [deleteAppointment] reads no dead string and removes that entry
    together with the copies of it that follow directly; the next entry
    takes its place under the references, and from there on it is the
    copies of that entry which are removed, while later copies of the first
    entry stay. *)
Theorem deleteAppointment_of_first_entry (p : AbstractPerson) (e : AppointmentRef)
    (n : nat) :
  let delete := deleteAppointment (Inside 0 DateTime) (Inside 0 PatientName)
                  (Inside 0 DoctorName) in
  (appointments p = e :: replicate n e →
   delete p = Some (mkPerson (name p) (dateOfBirth p) [])) ∧
  (∀ x tail, x ≠ e → appointments p = e :: replicate n e ++ x :: tail →
     delete p = Some (mkPerson (name p) (dateOfBirth p)
                        (x :: filter (λ y, y ≠ x) tail))).
Proof.
  intros delete. subst delete. unfold deleteAppointment, erase_remove_if, remove_if.
  assert (∀ more, find_if entry_field (Inside 0 DateTime) (Inside 0 PatientName)
            (Inside 0 DoctorName) (e :: more) (e :: more) 0 = Some 0) as Hfind.
  { intros more. cbn [find_if].
    by rewrite (lambda_of_first_entry _ e e), matches_refl. }
  assert (∀ more k, k < n → (e :: replicate n e ++ more) !! (1 + k) = Some e) as Hcopies.
  { intros more k Hk. simpl. rewrite lookup_app_l by (by rewrite length_replicate).
    by apply lookup_replicate_2. }
  split.
  - intros ->. rewrite Hfind. cbn [mbind option_bind].
    rewrite decide_False by (simpl; lia).
    cbn [length]. rewrite length_replicate.
    replace (S n - 1) with (n + 0) by lia.
    rewrite <- (app_nil_r (replicate n e)).
    rewrite (remove_if_loop_skip e n 0); [| done | by apply Hcopies]. done.
  - intros x tail Hx ->. rewrite Hfind. cbn [mbind option_bind].
    rewrite decide_False by (simpl; lia).
    cbn [length]. rewrite length_app, length_replicate. cbn [length].
    replace (S (n + S (length tail)) - 1) with (n + S (length tail)) by lia.
    rewrite (remove_if_loop_skip e n); [| done | by apply Hcopies].
    cbn [remove_if_loop].
    assert ((e :: replicate n e ++ x :: tail) !! (1 + n) = Some x) as ->.
    { simpl. rewrite lookup_app_r by (by rewrite length_replicate).
      by rewrite length_replicate, Nat.sub_diag. }
    cbn [mbind option_bind].
    rewrite (lambda_of_first_entry _ e x) by done.
    rewrite (proj2 (matches_other e x) Hx). cbn [mbind option_bind].
    pose proof (move_to_result moved_from_entry [] (replicate n e) tail e x x) as Hmove.
    rewrite length_replicate in Hmove. simpl in Hmove. simpl. rewrite Hmove.
    assert (∀ (v : list AppointmentRef) k y,
              v !! 0 = Some x → 1 ≤ k → <[k := y]> v !! 0 = Some x) as Hkept.
    { intros v k y Hv Hk. by rewrite list_lookup_insert_ne by lia. }
    destruct (remove_if_loop_stable entry_field moved_from_entry
                (Inside 0 DateTime) (Inside 0 PatientName) (Inside 0 DoctorName)
                (matches x.1 x.2.1 x.2.2) (λ v, v !! 0 = Some x) 1
                (λ v y, lambda_of_first_entry v x y) Hkept
                tail [x] (replicate n e ++ [moved_from_entry]))
      as (v' & Hrun & Htake).
    + done.
    + simpl. lia.
    + by destruct (replicate n e).
    + rewrite length_app, length_replicate in Hrun. simpl in Hrun.
      replace (n + 1) with (S n) in Hrun by lia.
      rewrite Hrun. simpl. simpl in Htake. rewrite Htake. do 3 f_equal.
      rewrite purge_filter. apply list_filter_iff. intros y. apply matches_other.
Qed.

Lemma deleteAppointment_of_first_entry_witness :
  let first := ("2025-01-10 09:00", ("Alice Smith", "Emily Johnson")) in
  let next := ("2025-01-10 09:30", ("Bob Johnson", "Emily Johnson")) in
  deleteAppointment (Inside 0 DateTime) (Inside 0 PatientName) (Inside 0 DoctorName)
    (mkPerson "Emily Johnson" EmptyString [first; next; first])
  = Some (mkPerson "Emily Johnson" EmptyString [next; first]).
Proof.
  intros first next.
  refine (proj2 (deleteAppointment_of_first_entry
                   (mkPerson "Emily Johnson" EmptyString [first; next; first]) first 0)
            next [first] _ _); [discriminate | reflexivity].
Defined.

Lemma lambda_of_appointment (v : list Appointment) (k : nat) (a b : Appointment) :
  v !! k = Some a →
  lambda appointment_field (Inside k DateTime) (Inside k PatientName) (Inside k DoctorName)
    v b
  = Some (cancels (_dateTime a) (getName (_patient a)) (getName (_doctor a)) b).
Proof.
  intros Ha. unfold lambda, deref, cancels. rewrite Ha. simpl.
  by destruct (String.eqb (_dateTime b) (_dateTime a)),
              (String.eqb (getName (_patient b)) (getName (_patient a))).
Qed.

Lemma find_if_last (v apps : list Appointment) (a : Appointment) (k first : nat) :
  v !! k = Some a → (∀ b, b ∈ apps → triple b ≠ triple a) →
  find_if appointment_field (Inside k DateTime) (Inside k PatientName) (Inside k DoctorName)
    v (apps ++ [a]) first
  = Some (first + length apps).
Proof.
  intros Ha. revert first. induction apps as [|b apps IH]; intros first Hother.
  - simpl. rewrite (lambda_of_appointment v k a a Ha). simpl.
    unfold cancels. rewrite !String.eqb_refl. simpl. by rewrite Nat.add_0_r.
  - cbn [app find_if]. rewrite (lambda_of_appointment v k a b Ha).
    assert (cancels (_dateTime a) (getName (_patient a)) (getName (_doctor a)) b = false)
      as ->.
    { apply cancels_false. apply (Hother b). apply list_elem_of_here. }
    cbn [mbind option_bind]. rewrite IH.
    + simpl. f_equal. lia.
    + intros b' Hb'. by apply Hother, list_elem_of_further.
Qed.

(** X30: handed the three strings of the last appointment of the global
    list, whose triple no earlier appointment has, [cancelAppointment]
    erases that appointment and then, looking up the doctor, reads the
    destroyed [doctorName]: undefined behaviour, whenever the registry has
    a doctor to compare with. *)
Theorem cancelAppointment_of_last_appointment (w : World) (apps : list Appointment)
    (a : Appointment) :
  _appointments (registry w) = apps ++ [a] →
  (∀ b, b ∈ apps → triple b ≠ triple a) →
  _doctors (registry w) ≠ [] →
  let of_last f := Entry GlobalList (length apps) f in
  content (registry w) (of_last DateTime) = Some (_dateTime a) ∧
  content (registry w) (of_last PatientName) = Some (getName (_patient a)) ∧
  content (registry w) (of_last DoctorName) = Some (getName (_doctor a)) ∧
  result_of (cancelAppointment (of_last DateTime) (of_last PatientName)
               (of_last DoctorName)) w = Undefined.
Proof.
  intros Happs Hother Hdoctors of_last. subst of_last.
  assert ((apps ++ [a]) !! length apps = Some a) as Ha by (by apply list_lookup_middle).
  split_and!; [simpl; by rewrite Happs, Ha.. |].
  unfold result_of, cancelAppointment. run.
  assert (erase_appointments (Entry GlobalList (length apps) DateTime)
            (Entry GlobalList (length apps) PatientName)
            (Entry GlobalList (length apps) DoctorName) w
          = (Returned (), mkWorld (set_appointments apps (registry w))
                                  (locals w) (console w))) as ->.
  { unfold erase_appointments, arg_at. rewrite !decide_True by done.
    cbv zeta. rewrite Happs. unfold erase_remove_if, remove_if.
    rewrite (find_if_last _ apps a (length apps) 0 Ha Hother).
    cbn [mbind option_bind Nat.add].
    rewrite decide_False by (rewrite length_app; simpl; lia).
    rewrite length_app. cbn [length].
    replace (length apps + 1 - S (length apps)) with 0 by lia.
    cbn [remove_if_loop mbind option_bind]. by rewrite take_app_length. }
  unfold find_through. simpl. rewrite lookup_ge_None_2 by done. simpl.
  by destruct (_doctors (registry w)).
Qed.

Lemma cancelAppointment_of_last_appointment_witness :
  result_of (cancelAppointment (Entry GlobalList 1 DateTime) (Entry GlobalList 1 PatientName)
               (Entry GlobalList 1 DoctorName)) two_bookings = Undefined.
Proof.
  refine (proj2 (proj2 (proj2 (cancelAppointment_of_last_appointment two_bookings
    [mkAppointment "2025-01-10 09:00"
       (appended ("2025-01-10 09:00", ("Alice Smith", "John Smith")) (Doctor_new "John Smith"))
       (appended ("2025-01-10 09:00", ("Alice Smith", "John Smith"))
          (Patient_new "Alice Smith" "23.08.1997"))]
    (mkAppointment "2025-01-10 09:30"
       (appended ("2025-01-10 09:30", ("Bob Johnson", "Emily Johnson"))
          (Doctor_new "Emily Johnson"))
       (appended ("2025-01-10 09:30", ("Bob Johnson", "Emily Johnson"))
          (Patient_new "Bob Johnson" "22.06.2000"))) _ _ _)))).
  - reflexivity.
  - intros b ->%list_elem_of_singleton. discriminate.
  - discriminate.
Defined.
